(** * A shallow embedding of [scraper_app.py]

    The crawl engine of the scraper: [fetch_html], [clean_html_text],
    [find_internal_links], the loop of [crawl_website_streamlit] with its
    setup and final write, and the validation done by the "Start Crawling"
    handler.

    Python values are modelled as follows.
    - A [str] is the list of its Unicode code points ([pystr]); [len] is
      [length].
    - [visited_urls] is a [gset]; [queue] (a deque used with [append] and
      [popleft]) is a list whose head is the left end.
    - The set [links] of [find_internal_links] is kept as the list of its
      distinct elements in insertion order; [list(links)] enumerates it in
      the interpreter's iteration order, a parameter of the model.
    - Exceptions are explicit: a call that may raise returns a [result].
    - The third-party calls (requests, readability, BeautifulSoup,
      urllib.parse) are the fields of a [World]; the outcome of the two
      [open(output_file, 'w')] is a [FileSystem].

    The Streamlit widgets ([status_placeholder], [progress_bar], the log
    text area), the [logging] calls and [time.sleep] only report; they do not
    touch the crawl state and are not modelled. *)

From stdpp Require Import gmap strings list.
From Stdlib Require Import ZArith NArith Ascii.

Local Open Scope Z_scope.

(** ** Python strings *)

Abbreviation pystr := (list N).

Definition str (s : string) : pystr :=
  (fun a : ascii => N_of_ascii a) <$> String.list_ascii_of_string s.
Arguments str : simpl never.

Definition ch_newline : N := 10%N.
Definition ch_quote : N := 34%N.
Definition ch_backslash : N := 92%N.

(** [s.startswith(p)] *)
Fixpoint startswith (s p : pystr) : bool :=
  match p, s with
  | [], _ => true
  | _ :: _, [] => false
  | c :: p', d :: s' => bool_decide (c = d) && startswith s' p'
  end.

(** [s.startswith((p1, p2, ...))] *)
Definition startswith_any (s : pystr) (ps : list pystr) : bool :=
  existsb (startswith s) ps.

(** [p in s] for strings: [p] occurs as a contiguous substring of [s]. *)
Fixpoint str_contains (p s : pystr) : bool :=
  startswith s p ||
  match s with
  | [] => false
  | _ :: s' => str_contains p s'
  end.

(** [s.strip()], for a given whitespace predicate. *)
Fixpoint lstrip (sp : N -> bool) (s : pystr) : pystr :=
  match s with
  | c :: s' => if sp c then lstrip sp s' else s
  | [] => []
  end.

Definition strip (sp : N -> bool) (s : pystr) : pystr :=
  rev (lstrip sp (rev (lstrip sp s))).

(** Truthiness of a string: [if s:] *)
Definition truthy (s : pystr) : bool :=
  match s with [] => false | _ :: _ => true end.

(** ** Exceptions *)

Inductive exn :=
| Timeout
| TooManyRedirects
| HTTPError
| ConnectionError
| OtherRequestException
| ValueError
| IOError
| OtherException.

(** [except requests.exceptions.Timeout] *)
Definition is_Timeout (e : exn) : bool :=
  match e with Timeout => true | _ => false end.

(** [except requests.exceptions.TooManyRedirects] *)
Definition is_TooManyRedirects (e : exn) : bool :=
  match e with TooManyRedirects => true | _ => false end.

(** [except requests.exceptions.RequestException]: the base class of the
    exceptions of requests. *)
Definition is_RequestException (e : exn) : bool :=
  match e with
  | Timeout | TooManyRedirects | HTTPError | ConnectionError
  | OtherRequestException => true
  | _ => false
  end.

(** [except ValueError] *)
Definition is_ValueError (e : exn) : bool :=
  match e with ValueError => true | _ => false end.

(** [except IOError]; [RequestException] derives from [IOError]. *)
Definition is_IOError (e : exn) : bool :=
  match e with IOError => true | _ => is_RequestException e end.

(** [except Exception] *)
Definition is_Exception (e : exn) : bool := true.

Inductive result (A : Type) :=
| Ok (a : A)
| Raise (e : exn).
Arguments Ok {A} a.
Arguments Raise {A} e.

(** Sequencing: an exception raised by the first call skips the rest. *)
#[global] Instance result_bind : MBind result :=
  fun A B (k : A -> result B) (r : result A) =>
    match r with
    | Ok a => k a
    | Raise e => Raise e
    end.

(** ** The outside world *)

(** [urllib.parse.ParseResult] *)
Record ParseResult := {
  scheme : pystr;
  netloc : pystr;
  path : pystr;
  params : pystr;
  query : pystr;
  fragment : pystr
}.

(** [parsed._replace(fragment=...)] *)
Definition replace_fragment (p : ParseResult) (f : pystr) : ParseResult :=
  {| scheme := scheme p; netloc := netloc p; path := path p;
     params := params p; query := query p; fragment := f |}.

(** What [fetch_html] reads from a [requests.Response]. *)
Record Response := {
  status_code : Z;
  header_content_type : option pystr;
  response_text : pystr
}.

(** [Response.raise_for_status] of requests: an [HTTPError] for a client
    error (400 to 499) or a server error (500 to 599), nothing for any
    other status. *)
Definition raise_for_status (response : Response) : result unit :=
  if bool_decide (400 ≤ status_code response < 600)
  then Raise HTTPError
  else Ok tt.

Record World := {
  (** whitespace as understood by [str.strip] *)
  isspace : N -> bool;
  (** [str.lower] *)
  str_lower : pystr -> pystr;
  (** [session.get(url, headers=headers, timeout=15)] *)
  session_get : pystr -> result Response;
  (** the body of the [try] of [clean_html_text]: readability's summary,
      the BeautifulSoup clean-up and the whitespace normalisation *)
  readable_text : pystr -> result pystr;
  (** a parsed document *)
  Soup : Type;
  (** [BeautifulSoup(html_content, 'lxml')] *)
  BeautifulSoup : pystr -> result Soup;
  (** [soup.find_all('a', href=True)], each tag read through
      [a_tag['href']]: the [href] values of the anchors, in document order *)
  find_all_a_href : Soup -> result (list pystr);
  urlparse : pystr -> result ParseResult;
  urljoin : pystr -> pystr -> result pystr;
  (** [ParseResult.geturl] *)
  geturl : ParseResult -> pystr;
  (** [list(links)] for a set built by adding the given distinct
      elements in the given order (the set is empty on the early returns
      of [find_internal_links], where [list(links)] is the empty list) *)
  set_order : list pystr -> list pystr
}.

(** A Python set enumerates exactly its elements, each once. *)
Definition set_order_lawful (w : World) : Prop :=
  forall l : list pystr, NoDup l -> set_order w l ≡ₚ l.

(** [links.add(x)] on the insertion-order representation. *)
Definition set_add (x : pystr) (links : list pystr) : list pystr :=
  if decide (x ∈ links) then links else links ++ [x].

Section Helpers.
Context (w : World).

(** *** fetch_html *)

Definition fetch_html_try (url : pystr) : result (option pystr) :=
  response ← session_get w url;
  _ ← raise_for_status response;
  let content_type :=
    str_lower w (default (str "") (header_content_type response)) in
  if negb (str_contains (str "html") content_type)
  then Ok None
  else Ok (Some (response_text response)).

Definition fetch_html (url : pystr) : result (option pystr) :=
  match fetch_html_try url with
  | Ok r => Ok r
  | Raise e =>
      if is_Timeout e then Ok None
      else if is_TooManyRedirects e then Ok None
      else if is_RequestException e then Ok None
      else if is_Exception e then Ok None
      else Raise e
  end.

(** *** clean_html_text *)

Definition clean_html_text (html_content : pystr) : result (option pystr) :=
  if negb (truthy html_content) then Ok None
  else
    match readable_text w html_content with
    | Ok text => Ok (Some text)
    | Raise e => if is_Exception e then Ok None else Raise e
    end.

(** *** find_internal_links *)

Definition skipped_prefixes : list pystr :=
  [str "#"; str "mailto:"; str "tel:"; str "javascript:"].

Definition allowed_schemes : list pystr := [str "http"; str "https"].

(** The [try] block inside the [for] loop, for one trimmed href. *)
Definition link_try (base_url base_domain href : pystr)
    (links : list pystr) : result (list pystr) :=
  absolute_url ← urljoin w base_url href;
  parsed_url ← urlparse w absolute_url;
  if bool_decide (scheme parsed_url ∈ allowed_schemes)
     && bool_decide (netloc parsed_url = base_domain)
  then Ok (set_add (geturl w (replace_fragment parsed_url [])) links)
  else Ok links.

(** The [for a_tag in soup.find_all('a', href=True)] loop. *)
Fixpoint links_loop (base_url base_domain : pystr) (hrefs : list pystr)
    (links : list pystr) : result (list pystr) :=
  match hrefs with
  | [] => Ok links
  | a_href :: rest =>
      let href := strip (isspace w) a_href in
      if truthy href && negb (startswith_any href skipped_prefixes) then
        match link_try base_url base_domain href links with
        | Ok links' => links_loop base_url base_domain rest links'
        | Raise e =>
            if is_ValueError e
            then links_loop base_url base_domain rest links
            else Raise e
        end
      else links_loop base_url base_domain rest links
  end.

Definition find_internal_links (html_content base_url : pystr)
    : result (list pystr) :=
  if negb (truthy html_content) then Ok []
  else
    soup ← BeautifulSoup w html_content;
    match urlparse w base_url with
    | Raise e => if is_ValueError e then Ok [] else Raise e
    | Ok parsed_base =>
        let base_domain := netloc parsed_base in
        if negb (truthy base_domain) then Ok []
        else
          hrefs ← find_all_a_href w soup;
          links ← links_loop base_url base_domain hrefs [];
          Ok (set_order w links)
    end.

End Helpers.

(** ** The crawl state *)

(** [data = {'url': current_url, 'text': cleaned_text}] *)
Record PageRecord := {
  url : pystr;
  text : pystr
}.

(** What a run does to the outside, in order. *)
Inductive event :=
| EvEnqueue (u : pystr)   (** [u] enters [queue] *)
| EvClear (ok : bool)     (** [open(output_file, 'w')] before the loop *)
| EvRequest (u : pystr)   (** [fetch_html(u, session)] *)
| EvWrite (ok : bool).    (** the final [open(output_file, 'w')] and writes *)

Record State := {
  queue : list pystr;
  visited_urls : gset pystr;
  pages_scraped_count : nat;
  data_saved_count : nat;
  all_results : list PageRecord;
  trace : list event
}.

Definition log_event (ev : event) (st : State) : State :=
  {| queue := queue st; visited_urls := visited_urls st;
     pages_scraped_count := pages_scraped_count st;
     data_saved_count := data_saved_count st;
     all_results := all_results st;
     trace := trace st ++ [ev] |}.

(** [visited_urls.add(link); queue.append(link)] *)
Definition enqueue (link : pystr) (st : State) : State :=
  {| queue := queue st ++ [link];
     visited_urls := {[link]} ∪ visited_urls st;
     pages_scraped_count := pages_scraped_count st;
     data_saved_count := data_saved_count st;
     all_results := all_results st;
     trace := trace st ++ [EvEnqueue link] |}.

(** [for link in internal_links: if link not in visited_urls: ...] *)
Fixpoint merge_links (internal_links : list pystr) (st : State) : State :=
  match internal_links with
  | [] => st
  | link :: rest =>
      if decide (link ∈ visited_urls st)
      then merge_links rest st
      else merge_links rest (enqueue link st)
  end.

(** [current_url = queue.popleft(); pages_scraped_count += 1], then the
    request is issued. *)
Definition dequeue (current_url : pystr) (rest : list pystr) (st : State)
    : State :=
  {| queue := rest;
     visited_urls := visited_urls st;
     pages_scraped_count := S (pages_scraped_count st);
     data_saved_count := data_saved_count st;
     all_results := all_results st;
     trace := trace st ++ [EvRequest current_url] |}.

(** [all_results.append(data); data_saved_count += 1] *)
Definition save (data : PageRecord) (st : State) : State :=
  {| queue := queue st;
     visited_urls := visited_urls st;
     pages_scraped_count := pages_scraped_count st;
     data_saved_count := S (data_saved_count st);
     all_results := all_results st ++ [data];
     trace := trace st |}.

(** The file system as the run meets it: whether the two [open(..., 'w')]
    succeed.  A failed final write leaves some content behind. *)
Record FileSystem := {
  clear_fault : option exn;
  write_fault : option (exn * pystr)
}.

(** What a call of [crawl_website_streamlit] leaves behind. *)
Record Run := {
  returned : result (option pystr);
  output : pystr;
  final_state : State;
  crawl_error_occurred : bool;
  write_error : bool
}.

(** ** json.dumps(item, ensure_ascii=False) *)

Definition hex_digit (n : N) : N :=
  if (n <? 10)%N then (48 + n)%N else (87 + n)%N.

(** The replacement of one character inside a JSON string: the quote, the
    backslash and the control characters below U+0020 are escaped, every
    other character is copied. *)
Definition escape_char (c : N) : pystr :=
  if bool_decide (c = ch_quote) then [ch_backslash; ch_quote]
  else if bool_decide (c = ch_backslash) then [ch_backslash; ch_backslash]
  else if bool_decide (c = 10%N) then ch_backslash :: str "n"
  else if bool_decide (c = 13%N) then ch_backslash :: str "r"
  else if bool_decide (c = 9%N) then ch_backslash :: str "t"
  else if bool_decide (c = 8%N) then ch_backslash :: str "b"
  else if bool_decide (c = 12%N) then ch_backslash :: str "f"
  else if (c <? 32)%N
       then ch_backslash :: str "u00" ++ [hex_digit (c / 16); hex_digit (c mod 16)]
  else [c].

Definition encode_basestring (s : pystr) : pystr :=
  [ch_quote] ++ concat (escape_char <$> s) ++ [ch_quote].

(** A dict with the keys ['url'] and ['text'], in that order, with the
    default separators. *)
Definition json_dumps (item : PageRecord) : pystr :=
  str "{" ++ encode_basestring (str "url") ++ str ": "
    ++ encode_basestring (url item) ++ str ", "
    ++ encode_basestring (str "text") ++ str ": "
    ++ encode_basestring (text item) ++ str "}".

Arguments escape_char : simpl never.
Arguments encode_basestring : simpl never.
Arguments json_dumps : simpl never.

(** [f_out.write(json.dumps(item, ensure_ascii=False) + '\n')] for every
    item. *)
Definition jsonl (results : list PageRecord) : pystr :=
  concat ((fun item => json_dumps item ++ [ch_newline]) <$> results).

Section Crawl.
Context (w : World).

(** *** The body of the [while] loop *)

(** The second component is the exception that leaves the body, if any;
    the state is the one reached when it was raised. *)
Definition loop_body (min_text_length : Z) (st : State)
    : State * option exn :=
  match queue st with
  | [] => (st, Some OtherException)
  | current_url :: rest =>
      let st := dequeue current_url rest st in
      match fetch_html w current_url with
      | Raise e => (st, Some e)
      | Ok None => (st, None)
      | Ok (Some html) =>
          if truthy html then
            match clean_html_text w html with
            | Raise e => (st, Some e)
            | Ok None => (st, None)
            | Ok (Some cleaned_text) =>
                if truthy cleaned_text
                   && bool_decide (min_text_length ≤ Z.of_nat (length cleaned_text))
                then
                  let data := {| url := current_url; text := cleaned_text |} in
                  let st := save data st in
                  match find_internal_links w html current_url with
                  | Raise e => (st, Some e)
                  | Ok internal_links => (merge_links internal_links st, None)
                  end
                else (st, None)
            end
          else (st, None)
      end
  end.

(** [while queue and pages_scraped_count < max_pages] *)
Definition loop_cond (max_pages : Z) (st : State) : bool :=
  match queue st with
  | [] => false
  | _ :: _ => bool_decide (Z.of_nat (pages_scraped_count st) < max_pages)
  end.

(** The loop inside [try: ... except Exception]; [fuel] bounds the number
    of iterations. *)
Fixpoint crawl_loop (fuel : nat) (max_pages min_text_length : Z)
    (st : State) : State * option exn :=
  match fuel with
  | O => (st, None)
  | S fuel' =>
      if loop_cond max_pages st then
        match loop_body min_text_length st with
        | (st', Some e) => (st', Some e)
        | (st', None) => crawl_loop fuel' max_pages min_text_length st'
        end
      else (st, None)
  end.

(** *** crawl_website_streamlit *)

Definition initial_state (start_url : pystr) : State :=
  {| queue := [start_url];
     visited_urls := {[start_url]};
     pages_scraped_count := 0;
     data_saved_count := 0;
     all_results := [];
     trace := [EvEnqueue start_url] |}.

Definition crawl_website_streamlit (fs : FileSystem)
    (start_url : pystr) (max_pages min_text_length : Z)
    (output_file old_content : pystr) : Run :=
  let st := initial_state start_url in
  match clear_fault fs with
  | Some e =>
      let st := log_event (EvClear false) st in
      {| returned := if is_IOError e then Ok None else Raise e;
         output := old_content;
         final_state := st;
         crawl_error_occurred := is_IOError e;
         write_error := false |}
  | None =>
      let st := log_event (EvClear true) st in
      match crawl_loop (Z.to_nat max_pages) max_pages min_text_length st with
      | (st, Some e) =>
          (* except Exception: crawl_error_occurred = True; the write is
             guarded by [if not crawl_error_occurred] *)
          {| returned := Ok None;
             output := [];
             final_state := st;
             crawl_error_occurred := true;
             write_error := false |}
      | (st, None) =>
          match write_fault fs with
          | None =>
              {| returned := Ok (Some output_file);
                 output := jsonl (all_results st);
                 final_state := log_event (EvWrite true) st;
                 crawl_error_occurred := false;
                 write_error := false |}
          | Some (e, left_behind) =>
              {| returned := if is_IOError e then Ok None else Raise e;
                 output := left_behind;
                 final_state := log_event (EvWrite false) st;
                 crawl_error_occurred := false;
                 write_error := is_IOError e |}
          end
      end
  end.

(** *** The "Start Crawling" handler *)

(** [all([parsed_start_url.scheme, parsed_start_url.netloc])], with
    [except ValueError] around the parse. *)
Definition is_valid_url (start_url : pystr) : result bool :=
  match urlparse w start_url with
  | Ok parsed_start_url =>
      Ok (truthy (scheme parsed_start_url) && truthy (netloc parsed_start_url))
  | Raise e => if is_ValueError e then Ok false else Raise e
  end.

(** [None] when the crawl function is not called. *)
Definition start_crawling (fs : FileSystem)
    (start_url : pystr) (max_pages min_text_length : Z)
    (output_file old_content : pystr) : result (option Run) :=
  valid ← is_valid_url start_url;
  if (valid : bool)
  then Ok (Some (crawl_website_streamlit fs start_url max_pages
                   min_text_length output_file old_content))
  else Ok None.

End Crawl.

(** ** Reading the trace *)

Definition enqueued (tr : list event) : list pystr :=
  omap (fun ev => match ev with EvEnqueue u => Some u | _ => None end) tr.

Definition requested (tr : list event) : list pystr :=
  omap (fun ev => match ev with EvRequest u => Some u | _ => None end) tr.

Definition is_file_event (ev : event) : bool :=
  match ev with EvClear _ | EvWrite _ => true | _ => false end.

(** ** State invariants *)

(** The frontier bookkeeping: the URLs that ever entered the queue are
    pairwise distinct, they are the members of [visited_urls], and they are
    the requested ones followed by those still waiting. *)
Definition frontier_ok (st : State) : Prop :=
  NoDup (enqueued (trace st))
  ∧ (forall u, u ∈ enqueued (trace st) <-> u ∈ visited_urls st)
  ∧ enqueued (trace st) = requested (trace st) ++ queue st.

(** The page counter counts the requests. *)
Definition counter_ok (max_pages : Z) (st : State) : Prop :=
  pages_scraped_count st = length (requested (trace st))
  ∧ Z.of_nat (pages_scraped_count st) ≤ Z.max 0 max_pages.


(** ** A small concrete world

    Executable stand-ins for the third-party calls, enough to run the crawl
    on small sites: URLs of the shape [scheme://netloc/path?query#fragment]
    (lower-case scheme, no parameters, no dot segments), documents whose
    anchors are written [<a href='...'>], and a table of responses. *)

Module Demo.

Definition ch (s : string) : N := default 0%N (head (str s)).

(** The part of [s] before the first character satisfying [p], and the
    rest from that character on. *)
Fixpoint break_at (p : N -> bool) (s : pystr) : pystr * pystr :=
  match s with
  | [] => ([], [])
  | c :: s' =>
      if p c then ([], s)
      else let '(a, b) := break_at p s' in (c :: a, b)
  end.

Definition is_char (c : N) : N -> bool := fun d => bool_decide (d = c).

Definition is_lower_alpha (c : N) : bool := (97 <=? c)%N && (c <=? 122)%N.
Definition is_upper_alpha (c : N) : bool := (65 <=? c)%N && (c <=? 90)%N.
Definition is_digit (c : N) : bool := (48 <=? c)%N && (c <=? 57)%N.

Definition is_scheme_char (c : N) : bool :=
  is_lower_alpha c || is_upper_alpha c || is_digit c
  || bool_decide (c ∈ str "+-.").

(** [urlparse]: scheme up to the first colon, netloc after [//] up to the
    next [/], [?] or [#], then fragment and query are split off. *)
Definition parse_url (u : pystr) : result ParseResult :=
  let '(sch, rest) :=
    match break_at (is_char (ch ":")) u with
    | (c :: pre, _ :: post) =>
        if (is_lower_alpha c || is_upper_alpha c)
           && forallb is_scheme_char pre
        then (c :: pre, post) else ([], u)
    | _ => ([], u)
    end in
  let '(loc, rest) :=
    if startswith rest (str "//")
    then break_at (fun c => bool_decide (c ∈ str "/?#")) (drop 2 rest)
    else ([], rest) in
  let '(rest, frag) := break_at (is_char (ch "#")) rest in
  let '(pth, qry) := break_at (is_char (ch "?")) rest in
  Ok {| scheme := sch; netloc := loc; path := pth; params := [];
        query := drop 1 qry; fragment := drop 1 frag |}.

(** [geturl]: the components put together again. *)
Definition unparse_url (p : ParseResult) : pystr :=
  let u := path p ++ (if truthy (params p) then str ";" ++ params p else []) in
  let u :=
    if truthy (netloc p)
    then str "//" ++ netloc p
           ++ (if truthy u && negb (startswith u (str "/"))
               then str "/" ++ u else u)
    else u in
  let u := if truthy (scheme p) then scheme p ++ str ":" ++ u else u in
  let u := if truthy (query p) then u ++ str "?" ++ query p else u in
  if truthy (fragment p) then u ++ str "#" ++ fragment p else u.

(** The directory of a path: up to and including its last [/]. *)
Definition dirname (pth : pystr) : pystr :=
  rev (snd (break_at (is_char (ch "/")) (rev pth))).

(** [urljoin]: a reference with a scheme stands for itself; otherwise the
    scheme, then the netloc, then the directory are taken from the base. *)
Definition join_url (base href : pystr) : result pystr :=
  b ← parse_url base;
  h ← parse_url href;
  if negb (truthy href) then Ok base
  else if truthy (scheme h) then Ok href
  else if truthy (netloc h)
  then Ok (unparse_url {| scheme := scheme b; netloc := netloc h; path := path h;
                     params := params h; query := query h;
                     fragment := fragment h |})
  else if startswith (path h) (str "/")
  then Ok (unparse_url {| scheme := scheme b; netloc := netloc b; path := path h;
                     params := params h; query := query h;
                     fragment := fragment h |})
  else if truthy (path h)
  then Ok (unparse_url {| scheme := scheme b; netloc := netloc b;
                     path := dirname (path b) ++ path h;
                     params := params h; query := query h;
                     fragment := fragment h |})
  else Ok (unparse_url {| scheme := scheme b; netloc := netloc b; path := path b;
                     params := params b;
                     query := if truthy (query h) then query h else query b;
                     fragment := fragment h |}).

(** The [href] values of the [<a href='...'>] tags of a document, in
    document order. *)
Fixpoint anchors (html : pystr) : list pystr :=
  match html with
  | [] => []
  | _ :: rest =>
      (if startswith html (str "<a href='")
       then [fst (break_at (is_char (ch "'")) (drop 9 html))]
       else [])
      ++ anchors rest
  end.

(** The text of a document: what stands outside its tags. *)
Fixpoint strip_tags (in_tag : bool) (html : pystr) : pystr :=
  match html with
  | [] => []
  | c :: rest =>
      if bool_decide (c = ch "<") then strip_tags true rest
      else if bool_decide (c = ch ">") then strip_tags false rest
      else if in_tag then strip_tags in_tag rest
      else c :: strip_tags in_tag rest
  end.

Definition ascii_space (c : N) : bool :=
  bool_decide (c = 32%N) || ((9 <=? c)%N && (c <=? 13)%N).

Definition lower_char (c : N) : N :=
  if is_upper_alpha c then (c + 32)%N else c.

Definition ascii_lower (s : pystr) : pystr := lower_char <$> s.

(** A response with the given status, content type and body. *)
Definition page_with_status (status : Z) (content_type body : string)
    : Response :=
  {| status_code := status;
     header_content_type := Some (str content_type);
     response_text := str body |}.

(** A response with status 200 and the given content type and body. *)
Definition page (content_type body : string) : Response :=
  page_with_status 200 content_type body.

Fixpoint lookup_site (site : list (pystr * Response)) (u : pystr)
    : result Response :=
  match site with
  | [] => Raise ConnectionError
  | (v, r) :: site' => if bool_decide (u = v) then Ok r else lookup_site site' u
  end.

(** The world serving [site]; [order] is the iteration order of sets, and
    the parser raises on the documents [rejected]. *)
Definition world (site : list (pystr * Response))
    (order : list pystr -> list pystr) (rejected : list pystr) : World :=
  {| isspace := ascii_space;
     str_lower := ascii_lower;
     session_get := lookup_site site;
     readable_text := fun html => Ok (strip ascii_space (strip_tags false html));
     Soup := pystr;
     BeautifulSoup := fun html =>
       if bool_decide (html ∈ rejected) then Raise OtherException
       else Ok html;
     find_all_a_href := fun soup => Ok (anchors soup);
     urlparse := parse_url;
     urljoin := join_url;
     geturl := unparse_url;
     set_order := order |}.

(** A file system on which both opens succeed. *)
Definition fs_ok : FileSystem := {| clear_fault := None; write_fault := None |}.

End Demo.

(** ** What the loop does with a page, seen from the frontier *)

(** The links that [merge_links] appends: those not yet visited, each once,
    in the order of the list. *)
Fixpoint fresh_links (visited : gset pystr) (links : list pystr)
    : list pystr :=
  match links with
  | [] => []
  | link :: rest =>
      if decide (link ∈ visited) then fresh_links visited rest
      else link :: fresh_links ({[link]} ∪ visited) rest
  end.

(** The links the loop body obtains for [current_url]: those returned by
    [find_internal_links] when the page is fetched, cleaned and long enough,
    none when it is not, and an exception when one leaves the body. *)
Definition page_links (w : World) (min_text_length : Z) (current_url : pystr)
    : result (list pystr) :=
  match fetch_html w current_url with
  | Raise e => Raise e
  | Ok None => Ok []
  | Ok (Some html) =>
      if truthy html then
        match clean_html_text w html with
        | Raise e => Raise e
        | Ok None => Ok []
        | Ok (Some cleaned_text) =>
            if truthy cleaned_text
               && bool_decide (min_text_length ≤ Z.of_nat (length cleaned_text))
            then find_internal_links w html current_url
            else Ok []
        end
      else Ok []
  end.

(** The out-edges of a page in the graph the crawl walks. *)
Definition successors (w : World) (min_text_length : Z) (u : pystr)
    : list pystr :=
  match page_links w min_text_length u with
  | Ok links => links
  | Raise _ => []
  end.

(** ** Breadth-first traversal, level by level

    The reference the crawl order is compared with: the nodes at depth
    [n + 1] are the unseen successors of the nodes at depth [n], in the order
    in which those nodes and their successors are listed. *)

Fixpoint bfs_next_level (succ : pystr -> list pystr) (visited : gset pystr)
    (level : list pystr) : gset pystr * list pystr :=
  match level with
  | [] => (visited, [])
  | u :: us =>
      let new := fresh_links visited (succ u) in
      let '(visited', rest) :=
        bfs_next_level succ (list_to_set new ∪ visited) us in
      (visited', new ++ rest)
  end.

Fixpoint bfs_levels (succ : pystr -> list pystr) (depth : nat)
    (visited : gset pystr) (level : list pystr) : list pystr :=
  match depth with
  | O => []
  | S depth' =>
      level ++
      bfs_levels succ depth' (fst (bfs_next_level succ visited level))
        (snd (bfs_next_level succ visited level))
  end.

(** The first [depth] levels from [seed], concatenated. *)
Definition bfs_order (succ : pystr -> list pystr) (seed : pystr)
    (depth : nat) : list pystr :=
  bfs_levels succ depth {[seed]} [seed].

(** The same world with sets enumerated in insertion order, so that
    [find_internal_links] lists the links in the order in which the anchors
    occur in the document. *)
Definition in_anchor_order (w : World) : World :=
  {| isspace := isspace w; str_lower := str_lower w;
     session_get := session_get w; readable_text := readable_text w;
     Soup := Soup w; BeautifulSoup := BeautifulSoup w;
     find_all_a_href := find_all_a_href w; urlparse := urlparse w;
     urljoin := urljoin w; geturl := geturl w;
     set_order := fun links => links |}.

(** ** Example sites *)

(** A home page linking to two pages of its site (one through a relative
    reference with a fragment), to a mail address and to another host. *)
Definition site_small : list (pystr * Response) :=
  [ (str "http://h/",
     Demo.page "text/html"
       "<p>Welcome home</p><a href='/a'>A</a> <a href=' b#x '>B</a><a href='mailto:x@h'>m</a><a href='http://other/'>o</a><a href='#top'>t</a>");
    (str "http://h/a",
     Demo.page "Text/HTML; charset=utf-8" "<p>Page A text</p><a href='/'>home</a>");
    (str "http://h/b", Demo.page "text/html" "<p>Page B text</p>");
    (str "http://h/empty", Demo.page "text/html" "<p></p>");
    (str "http://h/pdf", Demo.page "application/pdf" "%PDF") ].

Definition world_small : World := Demo.world site_small (fun l => l) [].

(** The same site when sets are enumerated last-inserted first. *)
Definition world_reversed : World :=
  Demo.world site_small (fun l => rev l) [].

(** The same site when the parser rejects the document of page A. *)
Definition world_rejecting : World :=
  Demo.world site_small (fun l => l)
    [str "<p>Page A text</p><a href='/'>home</a>"].

Definition fs_clear_fails : FileSystem :=
  {| clear_fault := Some IOError; write_fault := None |}.

(** ** Reading a line-delimited file *)

(** The lines of a text, without their terminating newline. *)
Fixpoint split_lines (s : pystr) : list pystr :=
  match s with
  | [] => []
  | c :: s' =>
      if bool_decide (c = ch_newline) then [] :: split_lines s'
      else match split_lines s' with
           | [] => [[c]]
           | l :: ls => (c :: l) :: ls
           end
  end.

(** The characters outside ASCII. *)
Definition non_ascii (s : pystr) : pystr :=
  filter (fun c => (128 ≤ c)%N) s.

(** ** Link filtering, as a relation *)

(** The [base_domain] of the filter: the netloc of the parsed base, when the
    base parses and the netloc is not empty. *)
Definition base_domain_of (w : World) (base_url : pystr) : option pystr :=
  match urlparse w base_url with
  | Ok parsed => if truthy (netloc parsed) then Some (netloc parsed) else None
  | Raise _ => None
  end.

(** The anchor value [a_href] passes the filter and yields the link [u]:
    trimmed it is not empty and has none of the skipped prefixes, it
    resolves against the base to a URL that parses, with scheme http or
    https and the netloc of the base, and [u] is that URL without its
    fragment. *)
Definition internal_link (w : World) (base_url base_domain a_href u : pystr)
    : Prop :=
  let href := strip (isspace w) a_href in
  href ≠ []
  ∧ startswith_any href skipped_prefixes = false
  ∧ exists absolute_url parsed_url,
      urljoin w base_url href = Ok absolute_url
      ∧ urlparse w absolute_url = Ok parsed_url
      ∧ scheme parsed_url ∈ allowed_schemes
      ∧ netloc parsed_url = base_domain
      ∧ u = geturl w (replace_fragment parsed_url []).

(** [urllib.parse] signals a failure by [ValueError] only. *)
Definition raises_only_ValueError (w : World) : Prop :=
  (forall u e, urlparse w u = Raise e -> e = ValueError)
  ∧ (forall b h e, urljoin w b h = Raise e -> e = ValueError).

(** ** The host of a URL

    The netloc is the whole authority of a URL: userinfo, host and port as
    they are written.  The host alone is what urllib.parse gives as
    [ParseResult.hostname]: the netloc without the userinfo before its last
    [@] and without the port after the colon, the brackets of an address
    literal removed, in lower case (a zone after [%] kept as written), and
    [None] when nothing is left. *)

(** [s.partition(sep)] for a one-character separator: what stands before
    its first occurrence, whether it occurs, and what follows it. *)
Fixpoint str_partition (sep : N) (s : pystr) : pystr * bool * pystr :=
  match s with
  | [] => ([], false, [])
  | c :: s' =>
      if bool_decide (c = sep) then ([], true, s')
      else let '(a, found, b) := str_partition sep s' in (c :: a, found, b)
  end.

(** [s.rpartition(sep)]: the same at the last occurrence; everything is in
    the third part when there is none. *)
Definition str_rpartition (sep : N) (s : pystr) : pystr * bool * pystr :=
  let '(a, found, b) := str_partition sep (rev s) in
  if found then (rev b, true, rev a) else ([], false, s).

Definition ch_at : N := 64%N.
Definition ch_colon : N := 58%N.
Definition ch_open_bracket : N := 91%N.
Definition ch_close_bracket : N := 93%N.
Definition ch_percent : N := 37%N.

(** [_hostinfo]: the host and the port as written in the netloc. *)
Definition hostinfo (netloc : pystr) : pystr * pystr :=
  let '(_, _, hostinfo) := str_rpartition ch_at netloc in
  let '(_, have_open_br, bracketed) := str_partition ch_open_bracket hostinfo in
  if have_open_br then
    let '(hostname, _, port) := str_partition ch_close_bracket bracketed in
    let '(_, _, port) := str_partition ch_colon port in
    (hostname, port)
  else
    let '(hostname, _, port) := str_partition ch_colon hostinfo in
    (hostname, port).

(** [parsed.hostname] *)
Definition hostname (w : World) (parsed : ParseResult) : option pystr :=
  let hostname := fst (hostinfo (netloc parsed)) in
  if negb (truthy hostname) then None
  else
    let '(hostname, percent, zone) := str_partition ch_percent hostname in
    Some (str_lower w hostname
            ++ (if percent then [ch_percent] else []) ++ zone).

(** The filter with the host in the place of the netloc: [a_href] passes
    every step, resolving to a URL with scheme http or https whose host is
    the host of the base URL, and [u] is that URL without its fragment.
    This is what a filter by host would let through; the code's filter is
    [internal_link]. *)
Definition same_host_link (w : World) (base_url a_href u : pystr) : Prop :=
  let href := strip (isspace w) a_href in
  href ≠ []
  ∧ startswith_any href skipped_prefixes = false
  ∧ exists parsed_base host absolute_url parsed_url,
      urlparse w base_url = Ok parsed_base
      ∧ hostname w parsed_base = Some host
      ∧ urljoin w base_url href = Ok absolute_url
      ∧ urlparse w absolute_url = Ok parsed_url
      ∧ scheme parsed_url ∈ allowed_schemes
      ∧ hostname w parsed_url = Some host
      ∧ u = geturl w (replace_fragment parsed_url []).

(** ** Two runs over the same inputs *)

(** What the parser makes of a document, as far as the crawl reads it:
    the exception of the parser, or else what
    [soup.find_all('a', href=True)] gives. *)
Definition parsed_anchors (w : World) (html_content : pystr)
    : result (result (list pystr)) :=
  match BeautifulSoup w html_content with
  | Ok soup => Ok (find_all_a_href w soup)
  | Raise e => Raise e
  end.

(** The same static inputs: the site answers alike and the libraries
    compute alike in both worlds.  The order in which a set is enumerated
    is not part of it. *)
Definition same_static_inputs (w w' : World) : Prop :=
  (forall c, isspace w c = isspace w' c)
  ∧ (forall s, str_lower w s = str_lower w' s)
  ∧ (forall u, session_get w u = session_get w' u)
  ∧ (forall html, readable_text w html = readable_text w' html)
  ∧ (forall html, parsed_anchors w html = parsed_anchors w' html)
  ∧ (forall u, urlparse w u = urlparse w' u)
  ∧ (forall b h, urljoin w b h = urljoin w' b h)
  ∧ (forall p, geturl w p = geturl w' p).

(** Sets are enumerated in the same order, as they are in one interpreter
    process. *)
Definition same_set_order (w w' : World) : Prop :=
  forall links, set_order w links = set_order w' links.

(** ** More example sites *)

(** A page answered with status 300 (Multiple Choices) and an HTML body
    listing the choices; without a [Location] header requests hands such a
    response to the caller. *)
Definition site_multiple_choices : list (pystr * Response) :=
  [ (str "http://h/",
     Demo.page_with_status 300 "text/html"
       "<p>Multiple choices</p><a href='/a'>A</a>");
    (str "http://h/a", Demo.page "text/html" "<p>Page A text</p>") ].

Definition world_multiple_choices : World :=
  Demo.world site_multiple_choices (fun l => l) [].

(** A page answered with status 404 and an HTML body. *)
Definition site_not_found : list (pystr * Response) :=
  [ (str "http://h/",
     Demo.page_with_status 404 "text/html" "<p>Nothing here</p>");
    (str "http://h/a", Demo.page "text/html" "<p>Page A text</p>") ].

Definition world_not_found : World :=
  Demo.world site_not_found (fun l => l) [].

(** The order in which a frontier is worked off: what [budget] iterations
    request, starting from the given queue and visited set, when the
    out-links of a page are given by [succ]. *)
Fixpoint crawl_order (succ : pystr -> list pystr) (budget : nat)
    (queue : list pystr) (visited : gset pystr) : list pystr :=
  match budget, queue with
  | S budget', u :: rest =>
      u :: crawl_order succ budget'
             (rest ++ fresh_links visited (succ u))
             (list_to_set (fresh_links visited (succ u)) ∪ visited)
  | _, _ => []
  end.

(** A one-page site whose page links to itself by [/]; the page is served
    for its URL with and without a fragment, since a fragment is not part
    of a request. *)
Definition site_fragment : list (pystr * Response) :=
  [ (str "http://h/#top",
     Demo.page "text/html" "<p>Welcome home</p><a href='/'>home</a>");
    (str "http://h/",
     Demo.page "text/html" "<p>Welcome home</p><a href='/'>home</a>") ].

Definition world_fragment : World := Demo.world site_fragment (fun l => l) [].

(** ** Reading one line back

    A reader for the objects written by [json_dumps]: the two keys in
    order, each followed by a JSON string, whose escapes are undone. *)

Definition unhex (d : N) : option N :=
  if bool_decide (48 ≤ d ≤ 57)%N then Some (d - 48)%N
  else if bool_decide (97 ≤ d ≤ 102)%N then Some (d - 87)%N
  else None.

(** The character a two-character escape stands for. *)
Definition unescape (e : N) : option N :=
  if bool_decide (e = ch_quote) then Some ch_quote
  else if bool_decide (e = ch_backslash) then Some ch_backslash
  else if bool_decide (e = 110%N) then Some 10%N
  else if bool_decide (e = 114%N) then Some 13%N
  else if bool_decide (e = 116%N) then Some 9%N
  else if bool_decide (e = 98%N) then Some 8%N
  else if bool_decide (e = 102%N) then Some 12%N
  else None.

(** The content of a JSON string up to its closing quote, and what follows
    the quote. *)
Fixpoint decode_string (s : pystr) : option (pystr * pystr) :=
  match s with
  | [] => None
  | c :: s1 =>
      if bool_decide (c = ch_quote) then Some ([], s1)
      else if bool_decide (c = ch_backslash) then
        match s1 with
        | [] => None
        | e :: s2 =>
            if bool_decide (e = 117%N) then
              match s2 with
              | a :: b :: h :: l :: s3 =>
                  match unhex h, unhex l, decode_string s3 with
                  | Some x, Some y, Some (t, rest) =>
                      if bool_decide (a = 48%N ∧ b = 48%N)
                      then Some ((16 * x + y)%N :: t, rest)
                      else None
                  | _, _, _ => None
                  end
              | _ => None
              end
            else
              match unescape e, decode_string s2 with
              | Some d, Some (t, rest) => Some (d :: t, rest)
              | _, _ => None
              end
        end
      else
        match decode_string s1 with
        | Some (t, rest) => Some (c :: t, rest)
        | None => None
        end
  end.

(** [s] without the prefix [p], when it starts with it. *)
Definition after_prefix (p s : pystr) : option pystr :=
  if startswith s p then Some (drop (length p) s) else None.

(** The text up to the opening quote of the URL, and the text between the
    closing quote of the URL and the opening quote of the text. *)
Definition object_open : pystr :=
  str "{" ++ encode_basestring (str "url") ++ str ": " ++ [ch_quote].
Definition object_middle : pystr :=
  str ", " ++ encode_basestring (str "text") ++ str ": " ++ [ch_quote].

Definition json_loads (line : pystr) : option PageRecord :=
  s ← after_prefix object_open line;
  '(u, s) ← decode_string s;
  s ← after_prefix object_middle s;
  '(t, s) ← decode_string s;
  if bool_decide (s = str "}") then Some {| url := u; text := t |} else None.

(** ** What the loop shows while it runs

    The progress bar and the politeness delay do not touch the crawl state;
    here the loop is written once more with them, to state when they
    happen.  [progress_bar.progress] and [time.sleep] are taken not to
    raise (the delay of the form is not negative). *)

Inductive ui_event :=
| UiProgress (count : nat) (max_pages : Z)
    (** [progress_bar.progress(min(1.0, count / max_pages))] *)
| UiSleep.
    (** [time.sleep(politeness_delay)] *)

Section CrawlUi.
Context (w : World).

(** The [while] loop with its progress updates and, at the end of the
    body, [if queue and pages_scraped_count < max_pages: time.sleep(...)]. *)
Fixpoint crawl_loop_ui (fuel : nat) (max_pages min_text_length : Z)
    (st : State) (ui : list ui_event) : State * option exn * list ui_event :=
  match fuel with
  | O => (st, None, ui)
  | S fuel' =>
      if loop_cond max_pages st then
        let ui := ui ++ [UiProgress (S (pages_scraped_count st)) max_pages] in
        match loop_body w min_text_length st with
        | (st', Some e) => (st', Some e, ui)
        | (st', None) =>
            let ui := if loop_cond max_pages st' then ui ++ [UiSleep] else ui in
            crawl_loop_ui fuel' max_pages min_text_length st' ui
        end
      else (st, None, ui)
  end.

End CrawlUi.

(** A progress update for each of the counts [first + 1], ..., [first + n],
    with a sleep between two consecutive ones. *)
Fixpoint ui_pattern (max_pages : Z) (first n : nat) : list ui_event :=
  match n with
  | O => []
  | S n' =>
      UiProgress (S first) max_pages ::
      match n' with
      | O => []
      | S _ => UiSleep :: ui_pattern max_pages (S first) n'
      end
  end.

(** The number of sleeps in a log. *)
Fixpoint sleeps (ui : list ui_event) : nat :=
  match ui with
  | [] => O
  | UiSleep :: ui' => S (sleeps ui')
  | UiProgress _ _ :: ui' => sleeps ui'
  end.

(** ** The final status *)

(** The three finish messages of the final status update. *)
Inductive finish :=
| NoMoreLinks (scraped : nat)
    (** "Crawl finished: No more unique links found. Scraped n pages." *)
| ReachedMaxPages (max_pages : Z)
    (** "Crawl finished: Reached max page limit (max_pages)." *)
| FinishedPlain (scraped : nat).
    (** "Crawl finished. Scraped n pages." *)

(** [if not queue and pages_scraped_count < max_pages: ...
     elif pages_scraped_count >= max_pages: ... else: ...] *)
Definition finish_message (max_pages : Z) (st : State) : finish :=
  if negb (bool_decide (queue st ≠ []))
     && bool_decide (Z.of_nat (pages_scraped_count st) < max_pages)
  then NoMoreLinks (pages_scraped_count st)
  else if bool_decide (max_pages ≤ Z.of_nat (pages_scraped_count st))
  then ReachedMaxPages max_pages
  else FinishedPlain (pages_scraped_count st).

(** What the success message reports: the finish message,
    [len(visited_urls)] and [data_saved_count]. *)
Record Summary := {
  message : finish;
  unique_urls : nat;
  pages_saved : nat
}.

(** The final status update, reached when no exception left the function:
    the success message is shown when neither [crawl_error_occurred] nor
    [write_error] is set. *)
Definition final_status (max_pages : Z) (r : Run) : option Summary :=
  match returned r with
  | Raise _ => None
  | Ok _ =>
      if negb (crawl_error_occurred r) && negb (write_error r)
      then Some {| message := finish_message max_pages (final_state r);
                   unique_urls := size (visited_urls (final_state r));
                   pages_saved := data_saved_count (final_state r) |}
      else None
  end.

(** ** The accumulated records *)

(** The saved counter counts the records; their URLs were requested, in
    that order; their texts passed the gate. *)
Definition results_ok (min_text_length : Z) (st : State) : Prop :=
  data_saved_count st = length (all_results st)
  ∧ (url <$> all_results st) `sublist_of` requested (trace st)
  ∧ Forall (fun data => text data ≠ []
                        ∧ min_text_length ≤ Z.of_nat (length (text data)))
      (all_results st).

(** ** Staying on the site *)

(** [urlparse] gives back the netloc of an http(s) URL that [geturl] has put
    together after the removal of the fragment. *)
Definition netloc_stable (w : World) : Prop :=
  forall absolute_url parsed,
    urlparse w absolute_url = Ok parsed ->
    scheme parsed ∈ allowed_schemes ->
    netloc parsed ≠ [] ->
    base_domain_of w (geturl w (replace_fragment parsed []))
    = Some (netloc parsed).

(** ** Which pages are saved *)

(** The text under which the page at [current_url] is saved, if it is:
    the page is fetched as HTML with a non-empty body, and the extracted
    text is non-empty and at least [min_text_length] long. *)
Definition saved_text (w : World) (min_text_length : Z) (current_url : pystr)
    : option pystr :=
  match fetch_html w current_url with
  | Ok (Some html) =>
      if truthy html then
        match clean_html_text w html with
        | Ok (Some cleaned_text) =>
            if truthy cleaned_text
               && bool_decide (min_text_length ≤ Z.of_nat (length cleaned_text))
            then Some cleaned_text
            else None
        | _ => None
        end
      else None
  | _ => None
  end.

(** The records of a list of requested URLs: one for each page that is
    saved, in the order of the list. *)
Definition records_of (w : World) (min_text_length : Z)
    (urls : list pystr) : list PageRecord :=
  omap (fun u => (fun t => {| url := u; text := t |})
                   <$> saved_text w min_text_length u) urls.

(** ** Where a URL comes from *)

(** [u] was discovered on the page [page_url]: the page was fetched as
    HTML and passed the gate, so that its links were looked for; the parser
    accepted its document, and among the anchors of that document there is
    one, [a_href], that passes the filter against the page's own netloc and
    gives [u]. *)
Definition discovered_on (w : World) (min_text_length : Z)
    (page_url u : pystr) : Prop :=
  exists html soup hrefs base_domain a_href,
    fetch_html w page_url = Ok (Some html)
    ∧ is_Some (saved_text w min_text_length page_url)
    ∧ BeautifulSoup w html = Ok soup
    ∧ find_all_a_href w soup = Ok hrefs
    ∧ a_href ∈ hrefs
    ∧ base_domain_of w page_url = Some base_domain
    ∧ internal_link w page_url base_domain a_href u.

(** Every URL of the list is the seed or was discovered on a page that
    stands before it in the list. *)
Definition linked_from_earlier (w : World) (min_text_length : Z)
    (seed : pystr) (l : list pystr) : Prop :=
  forall i u, l !! i = Some u ->
    u = seed
    ∨ exists j page_url,
        (j < i)%nat ∧ l !! j = Some page_url
        ∧ discovered_on w min_text_length page_url u.

(** ** The download button *)

(** What the handler shows once the crawl function has returned. *)
Inductive shown :=
| ShowInvalidUrl
    (** the start URL was rejected; the crawl function is not called *)
| ShowNothing
    (** the crawl function returned [None] or an empty path *)
| ShowNotFound
    (** [os.path.exists(result_file_path)] is false *)
| ShowReadError
    (** reading the file or placing the button raised *)
| ShowDownload (data file_name : pystr).
    (** [download_button(data=file_content, file_name=output_file)] *)

(** The result file as the handler finds it after the run: whether it
    exists, and whether reading it (or placing the button) raises. *)
Record Disk := {
  path_exists : bool;
  read_fault : option exn
}.

Section Handler.
Context (w : World).

(** [if st.sidebar.button("Start Crawling"): ...]: the validation, the
    crawl, and the download button.  The file read back is the file the run
    left. *)
Definition on_start_crawling (fs : FileSystem) (disk : Disk)
    (start_url : pystr) (max_pages min_text_length : Z)
    (output_file old_content : pystr) : result shown :=
  valid ← is_valid_url w start_url;
  if (valid : bool) then
    let r := crawl_website_streamlit w fs start_url max_pages min_text_length
               output_file old_content in
    result_file_path ← returned r;
    match result_file_path with
    | Some p =>
        if truthy p then
          if path_exists disk then
            match read_fault disk with
            | None => Ok (ShowDownload (output r) output_file)
            | Some e => if is_Exception e then Ok ShowReadError else Raise e
            end
          else Ok ShowNotFound
        else Ok ShowNothing
    | None => Ok ShowNothing
    end
  else Ok ShowInvalidUrl.

End Handler.
Lemma enqueued_snoc tr ev :
  enqueued (tr ++ [ev]) =
  enqueued tr ++ match ev with EvEnqueue u => [u] | _ => [] end.
Proof. unfold enqueued. rewrite omap_app. by destruct ev. Qed.

Lemma requested_snoc tr ev :
  requested (tr ++ [ev]) =
  requested tr ++ match ev with EvRequest u => [u] | _ => [] end.
Proof. unfold requested. rewrite omap_app. by destruct ev. Qed.

(** ** Invariants of a run *)

Section Invariant.
Context (w : World) (max_pages min_text_length : Z).
Context (P : State -> Prop).
Hypothesis P_file : forall ev st,
  is_file_event ev = true -> P st -> P (log_event ev st).
Hypothesis P_dequeue : forall u rest st,
  queue st = u :: rest ->
  Z.of_nat (pages_scraped_count st) < max_pages ->
  P st -> P (dequeue u rest st).
Hypothesis P_save : forall data st, P st -> P (save data st).
Hypothesis P_enqueue : forall link st,
  link ∉ visited_urls st -> P st -> P (enqueue link st).

Lemma merge_links_invariant links st : P st -> P (merge_links links st).
Proof.
  revert st. induction links as [|link links IH]; intros st HP; simpl; [done|].
  destruct (decide (link ∈ visited_urls st)); auto.
Qed.

Lemma loop_body_invariant st :
  loop_cond max_pages st = true -> P st ->
  P (fst (loop_body w min_text_length st)).
Proof.
  unfold loop_cond, loop_body. intros Hc HP.
  destruct (queue st) as [|u rest] eqn:Hq; [done|].
  apply bool_decide_eq_true in Hc.
  pose proof (P_dequeue u rest st Hq Hc HP) as HP1.
  destruct (fetch_html w u) as [[html|]|e]; simpl; try done.
  destruct (truthy html); simpl; [|done].
  destruct (clean_html_text w html) as [[cleaned|]|e]; simpl; try done.
  destruct (truthy cleaned && _); simpl; [|done].
  destruct (find_internal_links w html u) as [links|e]; simpl.
  - by apply merge_links_invariant, P_save.
  - by apply P_save.
Qed.

Lemma crawl_loop_invariant fuel st :
  P st -> P (fst (crawl_loop w fuel max_pages min_text_length st)).
Proof.
  revert st. induction fuel as [|fuel IH]; intros st HP; simpl; [done|].
  destruct (loop_cond max_pages st) eqn:Hc; [|done].
  pose proof (loop_body_invariant st Hc HP) as HP'.
  destruct (loop_body w min_text_length st) as [st' [e|]]; simpl in *; auto.
Qed.

Lemma run_invariant fs start_url output_file old_content :
  P (initial_state start_url) ->
  P (final_state (crawl_website_streamlit w fs start_url max_pages
                    min_text_length output_file old_content)).
Proof.
  intros HP. unfold crawl_website_streamlit.
  destruct (clear_fault fs) as [e|]; simpl; [by apply P_file|].
  assert (P (log_event (EvClear true) (initial_state start_url))) as HP1
    by by apply P_file.
  pose proof (crawl_loop_invariant (Z.to_nat max_pages) _ HP1) as HP2.
  destruct (crawl_loop w _ _ _ _) as [st [e|]]; simpl in *; [done|].
  destruct (write_fault fs) as [[e left]|]; simpl; by apply P_file.
Qed.
End Invariant.

Lemma frontier_ok_initial start_url : frontier_ok (initial_state start_url).
Proof.
  unfold frontier_ok; simpl. split_and!; [apply NoDup_singleton| |done].
  intros u. set_solver.
Qed.

Lemma frontier_ok_file ev st :
  is_file_event ev = true -> frontier_ok st -> frontier_ok (log_event ev st).
Proof.
  unfold frontier_ok; simpl. rewrite enqueued_snoc, requested_snoc.
  destruct ev; try done; rewrite !app_nil_r; done.
Qed.

Lemma frontier_ok_dequeue u rest st :
  queue st = u :: rest -> frontier_ok st -> frontier_ok (dequeue u rest st).
Proof.
  unfold frontier_ok; simpl. intros Hq (Hnd & Hin & Heq).
  rewrite enqueued_snoc, requested_snoc, app_nil_r.
  split_and!; [done..|]. by rewrite Heq, Hq, <- app_assoc.
Qed.

Lemma frontier_ok_save data st : frontier_ok st -> frontier_ok (save data st).
Proof. done. Qed.

Lemma frontier_ok_enqueue link st :
  link ∉ visited_urls st -> frontier_ok st -> frontier_ok (enqueue link st).
Proof.
  unfold frontier_ok; simpl. intros Hfresh (Hnd & Hin & Heq).
  rewrite enqueued_snoc, requested_snoc, app_nil_r.
  split_and!.
  - apply NoDup_app. split_and!; [done| |apply NoDup_singleton].
    intros x Hx ->%list_elem_of_singleton. by apply Hfresh, Hin.
  - intros u. rewrite elem_of_app, list_elem_of_singleton, Hin. set_solver.
  - by rewrite Heq, app_assoc.
Qed.

Lemma counter_ok_initial max_pages start_url :
  counter_ok max_pages (initial_state start_url).
Proof. unfold counter_ok; simpl. lia. Qed.

Lemma counter_ok_file max_pages ev st :
  is_file_event ev = true ->
  counter_ok max_pages st -> counter_ok max_pages (log_event ev st).
Proof.
  unfold counter_ok; simpl. rewrite requested_snoc.
  destruct ev; try done; rewrite !app_nil_r; done.
Qed.

Lemma counter_ok_dequeue max_pages u rest st :
  Z.of_nat (pages_scraped_count st) < max_pages ->
  counter_ok max_pages st -> counter_ok max_pages (dequeue u rest st).
Proof.
  unfold counter_ok; simpl. intros Hlt [Hc Hb].
  rewrite requested_snoc, length_app; simpl. lia.
Qed.

Lemma counter_ok_enqueue max_pages link st :
  counter_ok max_pages st -> counter_ok max_pages (enqueue link st).
Proof.
  unfold counter_ok; simpl. by rewrite requested_snoc, app_nil_r.
Qed.

(** Merging links touches neither the counters nor the results. *)
Lemma merge_links_counters links st :
  pages_scraped_count (merge_links links st) = pages_scraped_count st
  ∧ data_saved_count (merge_links links st) = data_saved_count st
  ∧ all_results (merge_links links st) = all_results st.
Proof.
  revert st. induction links as [|link links IH]; intros st; simpl; [done|].
  destruct (decide (link ∈ visited_urls st)); [apply IH|].
  destruct (IH (enqueue link st)) as (-> & -> & ->). done.
Qed.

(** Every iteration counts one page. *)
Lemma loop_body_count w min_text_length st :
  queue st ≠ [] ->
  pages_scraped_count (fst (loop_body w min_text_length st))
  = S (pages_scraped_count st).
Proof.
  unfold loop_body. intros Hq.
  destruct (queue st) as [|u rest]; [done|].
  destruct (fetch_html w u) as [[html|]|e]; simpl; try done.
  destruct (truthy html); simpl; [|done].
  destruct (clean_html_text w html) as [[cleaned|]|e]; simpl; try done.
  destruct (truthy cleaned && _); simpl; [|done].
  destruct (find_internal_links w html u) as [links|e]; simpl; [|done].
  by destruct (merge_links_counters links
    (save {| url := u; text := cleaned |} (dequeue u rest st))) as (-> & _).
Qed.

Lemma merge_links_requested links st :
  requested (trace (merge_links links st)) = requested (trace st).
Proof.
  revert st. induction links as [|link links IH]; intros st; simpl; [done|].
  destruct (decide (link ∈ visited_urls st)); [apply IH|].
  rewrite IH. simpl. by rewrite requested_snoc, app_nil_r.
Qed.

(** Every iteration issues one request, for the head of the queue. *)
Lemma loop_body_requested w min_text_length st u rest :
  queue st = u :: rest ->
  requested (trace (fst (loop_body w min_text_length st)))
  = requested (trace st) ++ [u].
Proof.
  unfold loop_body. intros ->.
  assert (requested (trace (dequeue u rest st)) = requested (trace st) ++ [u])
    as Hd by (simpl; by rewrite requested_snoc).
  destruct (fetch_html w u) as [[html|]|e]; simpl; try done.
  destruct (truthy html); simpl; [|done].
  destruct (clean_html_text w html) as [[cleaned|]|e]; simpl; try done.
  destruct (truthy cleaned && _); simpl; [|done].
  destruct (find_internal_links w html u) as [links|e]; simpl; [|done].
  by rewrite merge_links_requested.
Qed.

(** The loop is left because its condition fails, not because the model's
    fuel ran out: [Z.to_nat max_pages] iterations are always enough. *)
Lemma crawl_loop_exits w max_pages min_text_length fuel st :
  (Z.to_nat max_pages - pages_scraped_count st ≤ fuel)%nat ->
  snd (crawl_loop w fuel max_pages min_text_length st) = None ->
  loop_cond max_pages (fst (crawl_loop w fuel max_pages min_text_length st))
  = false.
Proof.
  revert st. induction fuel as [|fuel IH]; intros st Hfuel; simpl.
  - intros _. unfold loop_cond. destruct (queue st); [done|].
    apply bool_decide_eq_false. lia.
  - destruct (loop_cond max_pages st) eqn:Hc; [|done].
    assert (queue st ≠ []) as Hq.
    { unfold loop_cond in Hc. by destruct (queue st). }
    pose proof (loop_body_count w min_text_length st Hq) as Hcount.
    destruct (loop_body w min_text_length st) as [st' [e|]]; simpl in *;
      [done|].
    apply IH. lia.
Qed.

(** No URL is requested twice. *)
Lemma no_revisit_requests w fs start_url max_pages min_text_length
    output_file old_content :
  NoDup (requested (trace (final_state
           (crawl_website_streamlit w fs start_url max_pages min_text_length
              output_file old_content)))).
Proof.
  assert (frontier_ok (final_state
            (crawl_website_streamlit w fs start_url max_pages min_text_length
               output_file old_content))) as (Hnd & _ & Heq).
  { apply (run_invariant w max_pages min_text_length frontier_ok).
    - apply frontier_ok_file.
    - intros u rest st' Hq _. by apply frontier_ok_dequeue.
    - apply frontier_ok_save.
    - apply frontier_ok_enqueue.
    - apply frontier_ok_initial. }
  rewrite Heq in Hnd. by apply NoDup_app in Hnd as (? & _).
Qed.

(** ** No revisit, and the page budget *)


(** C2 (page budget).  For a page budget that is not negative, the number
    of pages attempted never exceeds [max_pages]: the counter equals the
    number of requests issued, an iteration is entered only while the
    counter is below [max_pages], each iteration dequeues one URL and adds
    one to the counter, and the loop stops because its condition fails. *)
Theorem page_budget (w : World) (fs : FileSystem) (start_url : pystr)
    (max_pages min_text_length : Z) (output_file old_content : pystr) :
  0 ≤ max_pages ->
  let st := final_state (crawl_website_streamlit w fs start_url max_pages
                           min_text_length output_file old_content) in
  Z.of_nat (pages_scraped_count st) ≤ max_pages
  ∧ pages_scraped_count st = length (requested (trace st))
  ∧ (forall st', loop_cond max_pages st' = true ->
       Z.of_nat (pages_scraped_count st') < max_pages
       ∧ exists u rest, queue st' = u :: rest
         ∧ pages_scraped_count (fst (loop_body w min_text_length st'))
           = S (pages_scraped_count st')
         ∧ requested (trace (fst (loop_body w min_text_length st')))
           = requested (trace st') ++ [u])
  ∧ (forall st',
       snd (crawl_loop w (Z.to_nat max_pages) max_pages min_text_length st')
       = None ->
       loop_cond max_pages
         (fst (crawl_loop w (Z.to_nat max_pages) max_pages min_text_length st'))
       = false).
Proof.
  intros Hmax st.
  assert (counter_ok max_pages st) as [Hc Hb].
  { apply (run_invariant w max_pages min_text_length (counter_ok max_pages)).
    - apply counter_ok_file.
    - intros u rest st' _ Hlt. by apply counter_ok_dequeue.
    - done.
    - intros link st' _. apply counter_ok_enqueue.
    - apply counter_ok_initial. }
  split_and!; [lia|done| |].
  - intros st' Hcond. unfold loop_cond in Hcond.
    destruct (queue st') as [|u rest] eqn:Hq; [done|].
    apply bool_decide_eq_true in Hcond. split; [done|].
    exists u, rest. split_and!; [done| |].
    + apply loop_body_count. by rewrite Hq.
    + by apply (loop_body_requested _ _ _ u rest).
  - intros st' Hnone. apply crawl_loop_exits; [lia|done].
Qed.

(** ** Fetching *)

Lemma fetch_html_returns w url : exists r, fetch_html w url = Ok r.
Proof.
  unfold fetch_html. destruct (fetch_html_try w url) as [r|e]; [by exists r|].
  exists None. by destruct e.
Qed.

Lemma fetch_html_Some w url body :
  fetch_html w url = Ok (Some body) <->
  exists response,
    session_get w url = Ok response
    ∧ ¬ (400 ≤ status_code response < 600)
    ∧ str_contains (str "html")
        (str_lower w (default (str "") (header_content_type response))) = true
    ∧ body = response_text response.
Proof.
  unfold fetch_html, fetch_html_try, raise_for_status. split.
  - destruct (session_get w url) as [response|e]; simpl; [|by destruct e].
    case_bool_decide as Hs; simpl; [done|].
    destruct (str_contains _ _) eqn:Hc; simpl; [|done].
    intros [= <-]. by exists response.
  - intros (response & -> & Hs & Hc & ->). simpl.
    rewrite bool_decide_false by done. simpl. by rewrite Hc.
Qed.

(** A fetch that gives [None] costs the page and nothing else. *)
Lemma loop_body_skip w min_text_length st url rest :
  queue st = url :: rest ->
  fetch_html w url = Ok None ->
  loop_body w min_text_length st = (dequeue url rest st, None).
Proof. intros Hq Hf. unfold loop_body. by rewrite Hq, Hf. Qed.

(** The loop only adds requests to those made. *)
Lemma crawl_loop_requested w fuel max_pages min_text_length st :
  requested (trace st)
    `prefix_of`
  requested (trace (fst (crawl_loop w fuel max_pages min_text_length st))).
Proof.
  apply (crawl_loop_invariant w max_pages min_text_length
           (fun st' => requested (trace st) `prefix_of` requested (trace st'))).
  - intros u rest st' _ _ Hp. simpl. rewrite requested_snoc. simpl.
    by apply prefix_app_r.
  - intros data st' Hp. exact Hp.
  - intros link st' _ Hp. simpl. rewrite requested_snoc. simpl.
    by rewrite app_nil_r.
  - done.
Qed.

(** C7, amended (fetch totality and classification).  [fetch_html] never
    raises.  An exception of [session.get], whatever its class (timeout,
    too many redirects, connection error, any other), a status from 400 to
    599, and a content type without "html" all give [None].  It returns the
    body exactly when the request returned a response whose status is not
    from 400 to 599 and whose content type, in lower case, contains "html".
    When the fetch gives [None] the loop body ends without exception: the
    URL has left the queue, the page is counted and requested, and nothing
    else has changed; when another URL waits and the budget allows, the
    loop goes on and requests it next. *)
Theorem fetch_total (w : World) (url : pystr) :
  (exists r, fetch_html w url = Ok r)
  ∧ (forall e, session_get w url = Raise e -> fetch_html w url = Ok None)
  ∧ (forall response,
       session_get w url = Ok response ->
       400 ≤ status_code response < 600 -> fetch_html w url = Ok None)
  ∧ (forall response,
       session_get w url = Ok response ->
       str_contains (str "html")
         (str_lower w (default (str "") (header_content_type response))) = false ->
       fetch_html w url = Ok None)
  ∧ (forall body,
       fetch_html w url = Ok (Some body) <->
       exists response,
         session_get w url = Ok response
         ∧ ¬ (400 ≤ status_code response < 600)
         ∧ str_contains (str "html")
             (str_lower w (default (str "") (header_content_type response))) = true
         ∧ body = response_text response)
  ∧ (forall min_text_length st rest,
       queue st = url :: rest ->
       fetch_html w url = Ok None ->
       exists st',
         loop_body w min_text_length st = (st', None)
         ∧ queue st' = rest
         ∧ pages_scraped_count st' = S (pages_scraped_count st)
         ∧ visited_urls st' = visited_urls st
         ∧ all_results st' = all_results st
         ∧ data_saved_count st' = data_saved_count st
         ∧ trace st' = trace st ++ [EvRequest url])
  ∧ (forall fuel max_pages min_text_length st next rest,
       queue st = url :: next :: rest ->
       fetch_html w url = Ok None ->
       Z.of_nat (pages_scraped_count st) + 1 < max_pages ->
       (requested (trace st) ++ [url; next])
         `prefix_of`
       requested (trace (fst (crawl_loop w (S (S fuel)) max_pages
                                min_text_length st)))).
Proof.
  split_and!.
  - apply fetch_html_returns.
  - intros e He. unfold fetch_html, fetch_html_try. rewrite He. by destruct e.
  - intros response Hg Hs. unfold fetch_html, fetch_html_try, raise_for_status.
    rewrite Hg. simpl. by rewrite bool_decide_true by done.
  - intros response Hg Hc. unfold fetch_html, fetch_html_try, raise_for_status.
    rewrite Hg. simpl. case_bool_decide; simpl; [done|by rewrite Hc].
  - apply fetch_html_Some.
  - intros min_text_length st rest Hq Hf. exists (dequeue url rest st).
    split; [by apply loop_body_skip|done].
  - intros fuel max_pages min_text_length st next rest Hq Hf Hbudget.
    assert (loop_cond max_pages st = true) as Hc.
    { unfold loop_cond. rewrite Hq. apply bool_decide_eq_true. lia. }
    assert (loop_cond max_pages (dequeue url (next :: rest) st) = true) as Hc'.
    { unfold loop_cond. simpl. apply bool_decide_eq_true. lia. }
    cbn [crawl_loop]. rewrite Hc, (loop_body_skip _ _ _ _ _ Hq Hf), Hc'.
    pose proof (loop_body_requested w min_text_length
                  (dequeue url (next :: rest) st) next rest eq_refl) as Hreq.
    simpl in Hreq. rewrite requested_snoc in Hreq. simpl in Hreq.
    rewrite <- app_assoc in Hreq. simpl in Hreq.
    destruct (loop_body w min_text_length (dequeue url (next :: rest) st))
      as [st2 [e|]]; simpl in Hreq; simpl.
    + by rewrite Hreq.
    + rewrite <- Hreq. apply crawl_loop_requested.
Qed.

(** C7 as stated fails for a status that is neither 2xx nor an error status:
    the page answered with 300 and an HTML body is fetched as HTML, saved,
    and its link followed; answered with 404 it is not. *)
Lemma fetch_accepts_status_300 :
  let r := crawl_website_streamlit world_multiple_choices Demo.fs_ok
             (str "http://h/") 10 5 (str "out.jsonl") [] in
  (exists response,
     session_get world_multiple_choices (str "http://h/") = Ok response
     ∧ status_code response = 300
     ∧ ¬ (200 ≤ status_code response < 300)
     ∧ fetch_html world_multiple_choices (str "http://h/")
       = Ok (Some (response_text response)))
  ∧ url <$> all_results (final_state r) = [str "http://h/"; str "http://h/a"]
  ∧ fetch_html world_not_found (str "http://h/") = Ok None.
Proof.
  split_and!.
  - eexists. split; [reflexivity|]. split; [reflexivity|].
    split; [simpl; lia|]. vm_compute. reflexivity.
  - vm_compute. reflexivity.
  - vm_compute. reflexivity.
Qed.

(** The budget theorem on the small site with a budget of two pages: the
    home page and one more are requested. *)
Lemma page_budget_witness :
  let st := final_state (crawl_website_streamlit world_small Demo.fs_ok
                           (str "http://h/") 2 5 (str "out.jsonl") []) in
  0 ≤ 2
  ∧ Z.of_nat (pages_scraped_count st) ≤ 2
  ∧ pages_scraped_count st = length (requested (trace st))
  ∧ requested (trace st) = [str "http://h/"; str "http://h/a"].
Proof.
  pose proof (page_budget world_small Demo.fs_ok (str "http://h/") 2 5
                (str "out.jsonl") [] ltac:(lia)) as (Hb & Hc & _).
  split; [lia|]. split; [exact Hb|]. split; [exact Hc|].
  vm_compute. reflexivity.
Defined.

(** ** Setup and finalization *)

(** The loop only appends to the trace, and never a file event. *)
Lemma crawl_loop_trace w fuel max_pages min_text_length st :
  exists tl,
    trace (fst (crawl_loop w fuel max_pages min_text_length st))
    = trace st ++ tl
    ∧ Forall (fun ev => is_file_event ev = false) tl.
Proof.
  apply (crawl_loop_invariant w max_pages min_text_length
           (fun st' => exists tl, trace st' = trace st ++ tl
                       ∧ Forall (fun ev => is_file_event ev = false) tl)).
  - intros u rest st' _ _ (tl & Htl & Hf). exists (tl ++ [EvRequest u]).
    simpl. rewrite Htl, <- app_assoc. split; [done|].
    apply Forall_app. split; [done|]. by apply Forall_singleton.
  - intros data st' H. exact H.
  - intros link st' _ (tl & Htl & Hf). exists (tl ++ [EvEnqueue link]).
    simpl. rewrite Htl, <- app_assoc. split; [done|].
    apply Forall_app. split; [done|]. by apply Forall_singleton.
  - exists []. by rewrite app_nil_r.
Qed.

(** C8, amended (abort before start).  In every run the attempt to clear
    the output file comes right after the queue is created and before any
    request.  When the clearing raises an I/O error the function returns
    [None] with no URL dequeued, no request issued, no record accumulated
    and the file as it was.  The handler does not call the crawl function
    at all exactly when the start URL parses to an empty scheme or an empty
    netloc, or does not parse; the netloc, not the host, decides. *)
Theorem abort_before_start (w : World) (fs : FileSystem) (start_url : pystr)
    (max_pages min_text_length : Z) (output_file old_content : pystr) :
  let r := crawl_website_streamlit w fs start_url max_pages min_text_length
             output_file old_content in
  (exists ok tl,
     trace (final_state r) = EvEnqueue start_url :: EvClear ok :: tl
     ∧ Forall (fun ev => forall b, ev ≠ EvClear b) tl)
  ∧ (forall e, clear_fault fs = Some e -> is_IOError e = true ->
       returned r = Ok None
       ∧ trace (final_state r) = [EvEnqueue start_url; EvClear false]
       ∧ requested (trace (final_state r)) = []
       ∧ queue (final_state r) = [start_url]
       ∧ pages_scraped_count (final_state r) = 0%nat
       ∧ all_results (final_state r) = []
       ∧ output r = old_content)
  ∧ (forall parsed, urlparse w start_url = Ok parsed ->
       (start_crawling w fs start_url max_pages min_text_length
          output_file old_content = Ok None
        <-> scheme parsed = [] ∨ netloc parsed = [])
       ∧ (scheme parsed ≠ [] -> netloc parsed ≠ [] ->
          start_crawling w fs start_url max_pages min_text_length
            output_file old_content = Ok (Some r)))
  ∧ (urlparse w start_url = Raise ValueError ->
       start_crawling w fs start_url max_pages min_text_length
         output_file old_content = Ok None).
Proof.
  intros r. split_and!.
  - subst r. unfold crawl_website_streamlit.
    destruct (clear_fault fs) as [e|]; simpl.
    { exists false, []. by split. }
    destruct (crawl_loop_trace w (Z.to_nat max_pages) max_pages min_text_length
                (log_event (EvClear true) (initial_state start_url)))
      as (tl & Htl & Hf).
    assert (Forall (fun ev => forall b, ev ≠ EvClear b) tl) as Hf'.
    { eapply Forall_impl; [exact Hf|]. intros ev Hev b ->. done. }
    destruct (crawl_loop w _ _ _ _) as [st [e|]]; simpl in *.
    + exists true, tl. by rewrite Htl.
    + destruct (write_fault fs) as [[e left]|]; simpl; rewrite Htl; simpl.
      * exists true, (tl ++ [EvWrite false]). split; [done|].
        apply Forall_app. split; [done|]. by apply Forall_singleton.
      * exists true, (tl ++ [EvWrite true]). split; [done|].
        apply Forall_app. split; [done|]. by apply Forall_singleton.
  - intros e He Hio. subst r. unfold crawl_website_streamlit.
    rewrite He. simpl. by rewrite Hio.
  - intros parsed Hp. unfold start_crawling, is_valid_url.
    rewrite Hp. cbn [mbind result_bind].
    destruct (scheme parsed) as [|c sch], (netloc parsed) as [|d loc];
      cbn [truthy andb]; split; try done.
    + split; [by left|done].
    + split; [by left|done].
    + split; [by right|done].
    + split; [done|]. by intros [?|?].
  - intros Hp. unfold start_crawling, is_valid_url. by rewrite Hp.
Qed.

(** C8 as stated fails for a start URL with a netloc but no host:
    [http://:80/] has the scheme [http] and the netloc [:80], so it passes
    the validation although its host is missing; the file is cleared, the
    URL is dequeued and requested (the request fails), and the path of the
    file is returned. *)
Lemma start_url_without_host_is_crawled :
  let start_url := str "http://:80/" in
  exists parsed r,
    urlparse world_small start_url = Ok parsed
    ∧ scheme parsed = str "http"
    ∧ netloc parsed = str ":80"
    ∧ hostname world_small parsed = None
    ∧ is_valid_url world_small start_url = Ok true
    ∧ start_crawling world_small Demo.fs_ok start_url 10 5
        (str "out.jsonl") (str "old") = Ok (Some r)
    ∧ trace (final_state r)
      = [EvEnqueue start_url; EvClear true; EvRequest start_url; EvWrite true]
    ∧ pages_scraped_count (final_state r) = 1%nat
    ∧ returned r = Ok (Some (str "out.jsonl")).
Proof.
  eexists. eexists. split; [vm_compute; reflexivity|].
  split; [reflexivity|]. split; [reflexivity|]. split; [vm_compute; reflexivity|].
  split; [vm_compute; reflexivity|]. split; [vm_compute; reflexivity|].
  split; [vm_compute; reflexivity|]. split; vm_compute; reflexivity.
Qed.

(** C5, amended (a run aborted inside the loop).  When an exception leaves
    the loop body, the records accumulated so far are still in
    [all_results], but [crawl_error_occurred] is set and the final write is
    skipped: the output file stays empty, as the clearing left it, nothing
    is written, and [None] is returned. *)
Theorem abort_during_run (w : World) (fs : FileSystem) (start_url : pystr)
    (max_pages min_text_length : Z) (output_file old_content : pystr)
    (st : State) (e : exn) :
  clear_fault fs = None ->
  crawl_loop w (Z.to_nat max_pages) max_pages min_text_length
    (log_event (EvClear true) (initial_state start_url)) = (st, Some e) ->
  let r := crawl_website_streamlit w fs start_url max_pages min_text_length
             output_file old_content in
  final_state r = st
  ∧ all_results (final_state r) = all_results st
  ∧ crawl_error_occurred r = true
  ∧ output r = []
  ∧ returned r = Ok None
  ∧ Forall (fun ev => forall b, ev ≠ EvWrite b) (trace (final_state r)).
Proof.
  intros Hclear Hloop r. subst r. unfold crawl_website_streamlit.
  rewrite Hclear, Hloop. simpl. split_and!; try done.
  destruct (crawl_loop_trace w (Z.to_nat max_pages) max_pages min_text_length
              (log_event (EvClear true) (initial_state start_url)))
    as (tl & Htl & Hf).
  rewrite Hloop in Htl. simpl in Htl. rewrite Htl.
  repeat (apply Forall_cons; split; [done|]).
  eapply Forall_impl; [exact Hf|]. intros ev Hev b ->. done.
Qed.

(** On the small site, when the parser rejects page A: the home page has
    been saved, then the run aborts. *)
Lemma abort_during_run_witness :
  let r := crawl_website_streamlit world_rejecting Demo.fs_ok
             (str "http://h/") 10 5 (str "out.jsonl") (str "old") in
  length (all_results (final_state r)) = 2%nat
  ∧ crawl_error_occurred r = true
  ∧ output r = []
  ∧ returned r = Ok None.
Proof.
  destruct (abort_during_run world_rejecting Demo.fs_ok (str "http://h/") 10 5
              (str "out.jsonl") (str "old")
              (fst (crawl_loop world_rejecting (Z.to_nat 10) 10 5
                      (log_event (EvClear true)
                         (initial_state (str "http://h/")))))
              OtherException)
    as (_ & _ & Herr & Hout & Hret & _).
  - reflexivity.
  - vm_compute. reflexivity.
  - split; [vm_compute; reflexivity|]. split; [exact Herr|].
    split; [exact Hout|exact Hret].
Defined.

(** C5 as stated fails: on that run two records were accumulated, the run
    aborted, and the output file does not hold them. *)
Lemma abort_does_not_flush :
  let r := crawl_website_streamlit world_rejecting Demo.fs_ok
             (str "http://h/") 10 5 (str "out.jsonl") (str "old") in
  crawl_error_occurred r = true
  ∧ url <$> all_results (final_state r) = [str "http://h/"; str "http://h/a"]
  ∧ output r = []
  ∧ output r ≠ jsonl (all_results (final_state r)).
Proof. vm_compute. split_and!; done. Qed.

(** ** The threshold gate *)

Lemma merge_links_frontier links st :
  queue (merge_links links st)
  = queue st ++ fresh_links (visited_urls st) links
  ∧ visited_urls (merge_links links st)
    = list_to_set (fresh_links (visited_urls st) links) ∪ visited_urls st.
Proof.
  revert st. induction links as [|link links IH]; intros st; simpl.
  - split; [by rewrite app_nil_r|set_solver].
  - destruct (decide (link ∈ visited_urls st)); [apply IH|].
    destruct (IH (enqueue link st)) as [-> ->]. simpl.
    split; [by rewrite <- app_assoc|set_solver].
Qed.

(** C4, amended (threshold gate).  For a page that was fetched as HTML and
    cleaned: it is saved, and its links are discovered and the unvisited
    ones appended to the frontier, exactly when the cleaned text is not
    empty and its length is at least [min_text_length]; otherwise the
    iteration leaves results, frontier and visited set as the dequeue left
    them. *)
Theorem threshold_gate (w : World) (min_text_length : Z) (st : State)
    (current_url : pystr) (rest : list pystr) (html cleaned_text : pystr) :
  queue st = current_url :: rest ->
  fetch_html w current_url = Ok (Some html) ->
  truthy html = true ->
  clean_html_text w html = Ok (Some cleaned_text) ->
  let data := {| url := current_url; text := cleaned_text |} in
  let passes :=
    cleaned_text ≠ [] ∧ min_text_length ≤ Z.of_nat (length cleaned_text) in
  (passes ->
     all_results (fst (loop_body w min_text_length st))
     = all_results st ++ [data]
     ∧ data_saved_count (fst (loop_body w min_text_length st))
       = S (data_saved_count st)
     ∧ forall links,
         find_internal_links w html current_url = Ok links ->
         snd (loop_body w min_text_length st) = None
         ∧ queue (fst (loop_body w min_text_length st))
           = rest ++ fresh_links (visited_urls st) links
         ∧ visited_urls (fst (loop_body w min_text_length st))
           = list_to_set (fresh_links (visited_urls st) links)
             ∪ visited_urls st)
  ∧ (¬ passes ->
       loop_body w min_text_length st = (dequeue current_url rest st, None)
       ∧ all_results (fst (loop_body w min_text_length st)) = all_results st
       ∧ queue (fst (loop_body w min_text_length st)) = rest
       ∧ visited_urls (fst (loop_body w min_text_length st))
         = visited_urls st).
Proof.
  intros Hq Hf Hh Hc data passes. unfold loop_body.
  rewrite Hq, Hf, Hh, Hc. split.
  - intros [Hne Hlen].
    assert (truthy cleaned_text = true) as -> by by destruct cleaned_text.
    rewrite bool_decide_eq_true_2 by done. cbn [andb].
    fold data.
    pose proof (merge_links_counters) as Hcnt.
    pose proof (merge_links_frontier) as Hfr.
    destruct (find_internal_links w html current_url) as [links|e];
      cbn [fst snd].
    + destruct (Hcnt links (save data (dequeue current_url rest st)))
        as (_ & -> & ->).
      split_and!; [done..|]. intros ? [= <-].
      destruct (Hfr links (save data (dequeue current_url rest st)))
        as [-> ->]. done.
    + split_and!; [done..|]. intros ? [=].
  - intros Hnot.
    assert (truthy cleaned_text
            && bool_decide (min_text_length ≤ Z.of_nat (length cleaned_text))
            = false) as ->; [|done].
    apply andb_false_iff. destruct cleaned_text as [|c t]; [by left|].
    right. apply bool_decide_eq_false. intros Hlen. apply Hnot. by split.
Qed.

(** The gate at the home page of the small site, whose text has 18
    characters, with the threshold at exactly 18: the page is saved and its
    two internal links are appended. *)
Lemma threshold_gate_witness :
  let st := log_event (EvClear true) (initial_state (str "http://h/")) in
  url <$> all_results (fst (loop_body world_small 18 st)) = [str "http://h/"]
  ∧ queue (fst (loop_body world_small 18 st))
    = [str "http://h/a"; str "http://h/b"]
  ∧ loop_body world_small 19 st = (dequeue (str "http://h/") [] st, None).
Proof.
  intros st.
  pose (html := response_text (snd (default (str "", Demo.page "" "")
                                      (head site_small)))).
  pose (cleaned := str "Welcome homeA Bmot").
  destruct (threshold_gate world_small 18 st (str "http://h/") [] html cleaned)
    as [Hyes _]; [reflexivity..|].
  destruct (threshold_gate world_small 19 st (str "http://h/") [] html cleaned)
    as [_ Hno]; [reflexivity..|].
  destruct Hyes as (Hres & _ & Hlinks); [split; [done|vm_compute; done]|].
  destruct (Hlinks [str "http://h/a"; str "http://h/b"]) as (_ & Hqueue & _);
    [reflexivity|].
  destruct Hno as (Hbody & _); [intros [_ Hlen]; vm_compute in Hlen; done|].
  split; [by rewrite Hres|]. split; [exact Hqueue|exact Hbody].
Defined.

(** C4 as stated fails at [min_text_length = 0]: the page [/empty] is
    fetched as HTML, its cleaned text is empty, so its length 0 is at least
    the threshold, and yet the page is not saved. *)
Lemma threshold_gate_fails_at_zero :
  let r := crawl_website_streamlit world_small Demo.fs_ok
             (str "http://h/empty") 10 0 (str "out.jsonl") [] in
  fetch_html world_small (str "http://h/empty") = Ok (Some (str "<p></p>"))
  ∧ clean_html_text world_small (str "<p></p>") = Ok (Some [])
  ∧ 0 ≤ Z.of_nat (length ([] : pystr))
  ∧ requested (trace (final_state r)) = [str "http://h/empty"]
  ∧ all_results (final_state r) = []
  ∧ returned r = Ok (Some (str "out.jsonl")).
Proof. vm_compute. split_and!; done. Qed.

(** ** The output file *)

Lemma hex_digit_range n :
  (n < 16)%N -> (48 ≤ hex_digit n)%N ∧ (hex_digit n < 128)%N.
Proof. unfold hex_digit. intros Hn. destruct (n <? 10)%N eqn:E; lia. Qed.

(** What [escape_char] produces: the character itself when it needs no
    escape, and otherwise printable ASCII characters only. *)
Lemma escape_char_cases c :
  escape_char c = [c] ∧ c ≠ ch_newline
  ∨ ((c < 128)%N ∧ Forall (fun d => (32 ≤ d)%N ∧ (d < 128)%N) (escape_char c)).
Proof.
  unfold escape_char, ch_quote, ch_backslash, ch_newline.
  repeat case_bool_decide;
    try (right; subst c; split; [lia|];
         repeat (apply Forall_cons; split; [vm_compute; by split|]);
         by apply Forall_nil).
  destruct (c <? 32)%N eqn:Hlt.
  - right. apply N.ltb_lt in Hlt. split; [lia|].
    assert (c / 16 < 16)%N by (apply N.Div0.div_lt_upper_bound; lia).
    assert (c mod 16 < 16)%N by (apply N.mod_upper_bound; lia).
    pose proof (hex_digit_range (c / 16)). pose proof (hex_digit_range (c mod 16)).
    repeat (apply Forall_cons; split; [first [vm_compute; by split | lia]|]).
    by apply Forall_nil.
  - left. done.
Qed.

Lemma escape_char_non_ascii c : (128 ≤ c)%N -> escape_char c = [c].
Proof.
  intros Hc. destruct (escape_char_cases c) as [[He _]|[Hlt _]]; [done|lia].
Qed.

Lemma escaped_no_newline s : ch_newline ∉ concat (escape_char <$> s).
Proof.
  induction s as [|c s IH]; simpl; [by apply not_elem_of_nil|].
  rewrite elem_of_app. intros [Hin|Hin]; [|done].
  destruct (escape_char_cases c) as [[He Hne]|[_ Hall]].
  - rewrite He in Hin. by apply list_elem_of_singleton in Hin.
  - rewrite Forall_forall in Hall. apply Hall in Hin.
    unfold ch_newline in Hin. lia.
Qed.

Lemma escaped_non_ascii s :
  non_ascii (concat (escape_char <$> s)) = non_ascii s.
Proof.
  unfold non_ascii. induction s as [|c s IH]; [done|].
  rewrite fmap_cons. change (concat (escape_char c :: (escape_char <$> s)))
    with (escape_char c ++ concat (escape_char <$> s)).
  rewrite filter_app, IH.
  destruct (escape_char_cases c) as [[He _]|[Hlt Hall]].
  - rewrite He, !filter_cons, filter_nil.
    by destruct (decide (128 ≤ c)%N).
  - rewrite (filter_cons_False _ c s) by lia.
    assert (filter (fun d => (128 ≤ d)%N) (escape_char c) = []) as ->; [|done].
    induction Hall as [|d l [_ Hd] _ IHl]; [done|].
    rewrite filter_cons_False by lia. done.
Qed.

Lemma encode_basestring_no_newline s : ch_newline ∉ encode_basestring s.
Proof.
  unfold encode_basestring. rewrite !elem_of_app, !list_elem_of_singleton.
  pose proof (escaped_no_newline s). intros [?|[?|?]]; done.
Qed.

Lemma encode_basestring_non_ascii s :
  non_ascii (encode_basestring s) = non_ascii s.
Proof.
  unfold encode_basestring, non_ascii. rewrite !filter_app.
  fold (non_ascii (concat (escape_char <$> s))). rewrite escaped_non_ascii.
  vm_compute (filter _ [ch_quote]). by rewrite app_nil_r.
Qed.

Lemma json_dumps_no_newline item : ch_newline ∉ json_dumps item.
Proof.
  unfold json_dumps. rewrite !not_elem_of_app.
  split_and!;
    first [ apply encode_basestring_no_newline
          | compute_done ].
Qed.

Lemma non_ascii_app a b : non_ascii (a ++ b) = non_ascii a ++ non_ascii b.
Proof. apply filter_app. Qed.

Lemma json_dumps_non_ascii item :
  non_ascii (json_dumps item) = non_ascii (url item) ++ non_ascii (text item).
Proof.
  unfold json_dumps.
  rewrite !non_ascii_app, !encode_basestring_non_ascii.
  change (non_ascii (str "{")) with (@nil N).
  change (non_ascii (str ": ")) with (@nil N).
  change (non_ascii (str ", ")) with (@nil N).
  change (non_ascii (str "}")) with (@nil N).
  change (non_ascii (str "url")) with (@nil N).
  change (non_ascii (str "text")) with (@nil N).
  by rewrite !app_nil_l, !app_nil_r.
Qed.

Lemma split_lines_line l rest :
  ch_newline ∉ l ->
  split_lines (l ++ ch_newline :: rest) = l :: split_lines rest.
Proof.
  induction l as [|c l IH]; intros Hl.
  - cbn [app split_lines]. by rewrite bool_decide_eq_true_2.
  - cbn [app split_lines]. rewrite bool_decide_eq_false_2 by set_solver.
    rewrite IH by set_solver. done.
Qed.

Lemma split_lines_jsonl results :
  split_lines (jsonl results) = json_dumps <$> results.
Proof.
  unfold jsonl. induction results as [|item results IH]; [done|].
  rewrite !fmap_cons. cbn [concat]. rewrite <- app_assoc. cbn [app].
  rewrite split_lines_line by apply json_dumps_no_newline.
  by rewrite IH.
Qed.

(** *** Reading a line back *)

Lemma unhex_hex_digit n : (n < 16)%N -> unhex (hex_digit n) = Some n.
Proof.
  intros Hn. unfold unhex, hex_digit. destruct (n <? 10)%N eqn:E.
  - apply N.ltb_lt in E. rewrite bool_decide_eq_true_2 by lia. f_equal. lia.
  - apply N.ltb_ge in E. rewrite bool_decide_eq_false_2 by lia.
    rewrite bool_decide_eq_true_2 by lia. f_equal. lia.
Qed.

Lemma decode_string_plain c s :
  c ≠ ch_quote -> c ≠ ch_backslash ->
  decode_string (c :: s)
  = match decode_string s with
    | Some (t, rest) => Some (c :: t, rest)
    | None => None
    end.
Proof.
  intros Hq Hb. cbn [decode_string]. by rewrite !bool_decide_eq_false_2 by done.
Qed.

Lemma decode_string_escape e d s :
  unescape e = Some d -> e ≠ 117%N ->
  decode_string (ch_backslash :: e :: s)
  = match decode_string s with
    | Some (t, rest) => Some (d :: t, rest)
    | None => None
    end.
Proof.
  intros He Hu. cbn [decode_string].
  rewrite (bool_decide_eq_false_2 (ch_backslash = ch_quote)) by done.
  rewrite (bool_decide_eq_true_2 (ch_backslash = ch_backslash)) by done.
  rewrite (bool_decide_eq_false_2 (e = 117%N)) by done.
  by rewrite He.
Qed.

Lemma decode_string_hex h l x y s :
  unhex h = Some x -> unhex l = Some y ->
  decode_string (ch_backslash :: 117%N :: 48%N :: 48%N :: h :: l :: s)
  = match decode_string s with
    | Some (t, rest) => Some ((16 * x + y)%N :: t, rest)
    | None => None
    end.
Proof.
  intros Hh Hl. cbn [decode_string].
  rewrite (bool_decide_eq_false_2 (ch_backslash = ch_quote)) by done.
  rewrite (bool_decide_eq_true_2 (ch_backslash = ch_backslash)) by done.
  rewrite (bool_decide_eq_true_2 (117%N = 117%N)) by done.
  rewrite Hh, Hl. destruct (decode_string s) as [[t rest]|]; [|done].
  by rewrite bool_decide_eq_true_2.
Qed.

(** Decoding undoes the escaping. *)
Lemma decode_string_escaped s rest :
  decode_string (concat (escape_char <$> s) ++ ch_quote :: rest)
  = Some (s, rest).
Proof.
  induction s as [|c s IH].
  - cbn [fmap list_fmap concat app decode_string].
    by rewrite bool_decide_eq_true_2.
  - rewrite fmap_cons.
    change (concat (escape_char c :: (escape_char <$> s)))
      with (escape_char c ++ concat (escape_char <$> s)).
    rewrite <- app_assoc.
    set (tl := concat (escape_char <$> s) ++ ch_quote :: rest) in *.
    clearbody tl. unfold escape_char.
    change (str "n") with [110%N]. change (str "r") with [114%N].
    change (str "t") with [116%N]. change (str "b") with [98%N].
    change (str "f") with [102%N]. change (str "u00") with [117%N; 48%N; 48%N].
    repeat case_bool_decide; subst; cbn [app];
      try (erewrite decode_string_escape
             by (first [reflexivity | by vm_compute]);
           by rewrite IH).
    destruct (c <? 32)%N eqn:Hlt; cbn [app].
    + apply N.ltb_lt in Hlt.
      assert (c / 16 < 16)%N by (apply N.Div0.div_lt_upper_bound; lia).
      assert (c mod 16 < 16)%N by (apply N.mod_upper_bound; lia).
      rewrite (decode_string_hex _ _ (c / 16) (c mod 16))
        by by apply unhex_hex_digit.
      rewrite IH. do 3 f_equal.
      pose proof (N.div_mod c 16 ltac:(lia)). lia.
    + rewrite decode_string_plain by done. by rewrite IH.
Qed.

Lemma after_prefix_app p s : after_prefix p (p ++ s) = Some s.
Proof.
  unfold after_prefix.
  assert (startswith (p ++ s) p = true) as ->.
  { induction p as [|c p IH]; [by destruct s|]. cbn [app startswith].
    by rewrite bool_decide_eq_true_2, IH. }
  by rewrite drop_app_length.
Qed.

(** Each line determines its record: an object with the string fields
    [url] and [text] and nothing else. *)
Lemma json_dumps_shape item :
  json_dumps item
  = object_open
    ++ (concat (escape_char <$> url item)
        ++ ch_quote
           :: (object_middle
               ++ (concat (escape_char <$> text item) ++ ch_quote :: str "}"))).
Proof.
  unfold json_dumps, object_open, object_middle, encode_basestring.
  rewrite <- !app_assoc. cbn [app]. done.
Qed.

Lemma json_loads_dumps item : json_loads (json_dumps item) = Some item.
Proof.
  unfold json_loads. rewrite json_dumps_shape.
  rewrite after_prefix_app. cbn [mbind option_bind].
  rewrite decode_string_escaped. cbn [mbind option_bind].
  rewrite after_prefix_app. cbn [mbind option_bind].
  rewrite decode_string_escaped. cbn [mbind option_bind].
  rewrite bool_decide_eq_true_2 by done. by destruct item.
Qed.

(** A run that returns the file path went through the clearing, a loop
    without exception and a successful write. *)
Lemma successful_run w fs start_url max_pages min_text_length output_file
    old_content p :
  returned (crawl_website_streamlit w fs start_url max_pages min_text_length
              output_file old_content) = Ok (Some p) ->
  p = output_file
  ∧ clear_fault fs = None
  ∧ write_fault fs = None
  ∧ snd (crawl_loop w (Z.to_nat max_pages) max_pages min_text_length
           (log_event (EvClear true) (initial_state start_url))) = None.
Proof.
  unfold crawl_website_streamlit.
  destruct (clear_fault fs) as [e|]; simpl; [by destruct (is_IOError e)|].
  destruct (crawl_loop w _ _ _ _) as [st [e|]]; simpl; [done|].
  destruct (write_fault fs) as [[e left]|]; simpl;
    [by destruct (is_IOError e)|].
  by intros [= ->].
Qed.

(** ** Two worlds with the same inputs *)

Lemma lstrip_same sp sp' s :
  (forall c, sp c = sp' c) -> lstrip sp s = lstrip sp' s.
Proof.
  intros Hsp. induction s as [|c s IH]; simpl; [done|].
  rewrite <- Hsp. by destruct (sp c).
Qed.

Lemma strip_same sp sp' s :
  (forall c, sp c = sp' c) -> strip sp s = strip sp' s.
Proof.
  intros Hsp. unfold strip.
  by rewrite (lstrip_same sp sp' s Hsp), (lstrip_same sp sp' (rev _) Hsp).
Qed.

Section SameInputs.
Context (w w' : World).
Context (Hsame : same_static_inputs w w').

Lemma fetch_html_same url : fetch_html w url = fetch_html w' url.
Proof.
  destruct Hsame as (_ & Hlower & Hget & _).
  unfold fetch_html, fetch_html_try. rewrite <- Hget.
  destruct (session_get w url) as [response|e]; simpl; [|done].
  by rewrite <- Hlower.
Qed.

Lemma clean_html_text_same html :
  clean_html_text w html = clean_html_text w' html.
Proof.
  destruct Hsame as (_ & _ & _ & Htext & _).
  unfold clean_html_text. by rewrite <- Htext.
Qed.

Lemma links_loop_same base_url base_domain hrefs : forall links,
  links_loop w base_url base_domain hrefs links
  = links_loop w' base_url base_domain hrefs links.
Proof.
  destruct Hsame as (Hsp & _ & _ & _ & _ & Hparse & Hjoin & Hget).
  induction hrefs as [|a hrefs IH]; intros links; [done|].
  cbn [links_loop]. rewrite <- (strip_same _ _ a Hsp).
  destruct (truthy _ && negb _); [|apply IH].
  unfold link_try. rewrite <- Hjoin.
  destruct (urljoin w base_url _) as [absolute|e]; cbn [mbind result_bind];
    [|by rewrite IH].
  rewrite <- Hparse.
  destruct (urlparse w absolute) as [parsed|e]; cbn [mbind result_bind];
    [|by rewrite IH].
  rewrite <- Hget. destruct (_ && _); cbn [mbind result_bind]; apply IH.
Qed.

Context (Horder : same_set_order w w').

Lemma find_internal_links_same html base_url :
  find_internal_links w html base_url = find_internal_links w' html base_url.
Proof.
  destruct Hsame as (_ & _ & _ & _ & Hanchors & Hparse & _).
  unfold find_internal_links. destruct (truthy html); cbn [negb]; [|done].
  specialize (Hanchors html). unfold parsed_anchors in Hanchors.
  rewrite <- Hparse.
  destruct (BeautifulSoup w html) as [soup|e],
           (BeautifulSoup w' html) as [soup'|e']; try done;
    cbn [mbind result_bind]; [|congruence].
  injection Hanchors as Hfind.
  destruct (urlparse w base_url) as [parsed|e]; [|done].
  destruct (truthy (netloc parsed)); cbn [negb]; [|done].
  rewrite <- Hfind.
  destruct (find_all_a_href w soup) as [hrefs|e]; cbn [mbind result_bind];
    [|done].
  rewrite <- links_loop_same.
  destruct (links_loop w base_url (netloc parsed) hrefs []) as [links|e];
    cbn [mbind result_bind]; [|done].
  by rewrite Horder.
Qed.

Lemma loop_body_same min_text_length st :
  loop_body w min_text_length st = loop_body w' min_text_length st.
Proof.
  unfold loop_body. destruct (queue st) as [|u rest]; [done|].
  rewrite <- fetch_html_same.
  destruct (fetch_html w u) as [[html|]|e]; try done.
  destruct (truthy html); [|done].
  rewrite <- clean_html_text_same.
  destruct (clean_html_text w html) as [[cleaned|]|e]; try done.
  destruct (truthy cleaned && _); [|done].
  by rewrite <- find_internal_links_same.
Qed.

Lemma crawl_loop_same fuel max_pages min_text_length : forall st,
  crawl_loop w fuel max_pages min_text_length st
  = crawl_loop w' fuel max_pages min_text_length st.
Proof.
  induction fuel as [|fuel IH]; intros st; [done|].
  cbn [crawl_loop]. rewrite <- loop_body_same.
  destruct (loop_cond max_pages st); [|done].
  destruct (loop_body w min_text_length st) as [st' [e|]]; [done|apply IH].
Qed.

Lemma crawl_same fs start_url max_pages min_text_length output_file
    old_content :
  crawl_website_streamlit w fs start_url max_pages min_text_length
    output_file old_content
  = crawl_website_streamlit w' fs start_url max_pages min_text_length
      output_file old_content.
Proof. unfold crawl_website_streamlit. by rewrite <- crawl_loop_same. Qed.

End SameInputs.

(** What a run leaves when both opens succeed and no exception leaves the
    loop. *)
Lemma run_output w fs start_url max_pages min_text_length output_file
    old_content :
  clear_fault fs = None ->
  write_fault fs = None ->
  let loop := crawl_loop w (Z.to_nat max_pages) max_pages min_text_length
                (log_event (EvClear true) (initial_state start_url)) in
  let r := crawl_website_streamlit w fs start_url max_pages min_text_length
             output_file old_content in
  snd loop = None ->
  returned r = Ok (Some output_file)
  ∧ output r = jsonl (all_results (fst loop))
  ∧ all_results (final_state r) = all_results (fst loop)
  ∧ data_saved_count (final_state r) = data_saved_count (fst loop).
Proof.
  intros Hclear Hwrite loop r. subst loop r. unfold crawl_website_streamlit.
  rewrite Hclear, Hwrite.
  destruct (crawl_loop w _ _ _ _) as [st [e|]]; simpl; done.
Qed.

(** C9, amended (output format).  On a run that returns the file path, the
    file holds exactly one line per saved record, in accumulation order,
    each line being the JSON object of that record: an object with the two
    keys [url] and [text], each with a string, from which the record is
    read back, in which no raw newline occurs and in which the characters
    outside ASCII are those of the record's URL and text, unescaped.  The
    content does not depend on what the file held before: it is
    overwritten, never appended to.  A second run over the same static
    inputs, whatever the file holds by then, returns the path as well and
    writes the same content, provided sets are enumerated in the same order
    in both runs. *)
Theorem output_format (w : World) (fs : FileSystem) (start_url : pystr)
    (max_pages min_text_length : Z) (output_file old_content p : pystr) :
  let run := crawl_website_streamlit w fs start_url max_pages min_text_length
               output_file in
  returned (run old_content) = Ok (Some p) ->
  p = output_file
  ∧ output (run old_content) = jsonl (all_results (final_state (run old_content)))
  ∧ split_lines (output (run old_content))
    = (json_dumps <$> all_results (final_state (run old_content)))
  ∧ (json_loads <$> split_lines (output (run old_content)))
    = (Some <$> all_results (final_state (run old_content)))
  ∧ length (split_lines (output (run old_content)))
    = data_saved_count (final_state (run old_content))
  ∧ (forall other_content, output (run other_content) = output (run old_content))
  ∧ (forall w' fs' other_content,
       same_static_inputs w w' ->
       same_set_order w w' ->
       clear_fault fs' = None ->
       write_fault fs' = None ->
       let run' := crawl_website_streamlit w' fs' start_url max_pages
                     min_text_length output_file other_content in
       returned run' = Ok (Some output_file)
       ∧ output run' = output (run old_content))
  ∧ (forall item,
       json_dumps item
       = str "{" ++ encode_basestring (str "url") ++ str ": "
           ++ encode_basestring (url item) ++ str ", "
           ++ encode_basestring (str "text") ++ str ": "
           ++ encode_basestring (text item) ++ str "}"
       ∧ json_loads (json_dumps item) = Some item
       ∧ (ch_newline ∉ json_dumps item)
       ∧ non_ascii (json_dumps item)
         = non_ascii (url item) ++ non_ascii (text item))
  ∧ (forall c, (128 ≤ c)%N -> escape_char c = [c]).
Proof.
  intros run Hret.
  destruct (successful_run _ _ _ _ _ _ _ _ Hret) as (-> & Hclear & Hwrite & Hloop).
  pose proof (fun content =>
                run_output w fs start_url max_pages min_text_length output_file
                  content Hclear Hwrite Hloop) as Hout.
  cbn zeta in Hout. fold run in Hout.
  assert (data_saved_count (final_state (run old_content))
          = length (all_results (final_state (run old_content)))) as Hsaved.
  { apply (run_invariant w max_pages min_text_length
             (fun st => data_saved_count st = length (all_results st)));
      try done.
    intros data st Hst. simpl. rewrite length_app, Hst. simpl. lia. }
  destruct (Hout old_content) as (_ & Ho & Ha & Hd).
  split_and!.
  - done.
  - by rewrite Ho, Ha.
  - by rewrite Ho, Ha, split_lines_jsonl.
  - rewrite Ho, Ha, split_lines_jsonl, <- list_fmap_compose.
    apply list_fmap_ext. intros i item _. apply json_loads_dumps.
  - by rewrite Ho, split_lines_jsonl, length_fmap, Hsaved, Ha.
  - intros other. destruct (Hout other) as (_ & -> & _). by rewrite Ho.
  - intros w' fs' other Hsame Horder Hclear' Hwrite' run'. subst run'.
    rewrite <- (crawl_same w w' Hsame Horder).
    destruct (run_output w fs' start_url max_pages min_text_length output_file
                other Hclear' Hwrite' Hloop) as (Hr & Ho' & _).
    split; [exact Hr|]. by rewrite Ho', Ho.
  - intros item.
    split_and!; [done|apply json_loads_dumps|apply json_dumps_no_newline
                |apply json_dumps_non_ascii].
  - apply escape_char_non_ascii.
Qed.

(** C9 as stated fails without the proviso.  The small site is crawled with
    a budget of two pages by two interpreters that enumerate the set of the
    home page's links in opposite orders, both lawfully: the site, the
    libraries and the parameters are the same, both runs return the path,
    and the files differ (page A in the one, page B in the other). *)
Lemma output_depends_on_set_order :
  let r := crawl_website_streamlit world_small Demo.fs_ok (str "http://h/")
             2 5 (str "out.jsonl") [] in
  let r' := crawl_website_streamlit world_reversed Demo.fs_ok (str "http://h/")
              2 5 (str "out.jsonl") [] in
  same_static_inputs world_small world_reversed
  ∧ set_order_lawful world_small
  ∧ set_order_lawful world_reversed
  ∧ returned r = Ok (Some (str "out.jsonl"))
  ∧ returned r' = Ok (Some (str "out.jsonl"))
  ∧ url <$> all_results (final_state r) = [str "http://h/"; str "http://h/a"]
  ∧ url <$> all_results (final_state r') = [str "http://h/"; str "http://h/b"]
  ∧ output r ≠ output r'.
Proof.
  split_and!.
  - by split_and!.
  - intros l _. reflexivity.
  - intros l _. symmetry. apply Permutation_rev.
  - vm_compute. reflexivity.
  - vm_compute. reflexivity.
  - vm_compute. reflexivity.
  - vm_compute. reflexivity.
  - vm_compute. discriminate.
Qed.

(** The format theorem on the small site: three pages are saved, and the
    file has three lines; a second run over a stale file, in a world with
    the same inputs and the same order of enumeration, writes the same
    file. *)
Lemma output_format_witness :
  let r := crawl_website_streamlit world_small Demo.fs_ok (str "http://h/")
             10 5 (str "out.jsonl") (str "stale") in
  let r' := crawl_website_streamlit (in_anchor_order world_small) Demo.fs_ok
              (str "http://h/") 10 5 (str "out.jsonl") (output r) in
  returned r = Ok (Some (str "out.jsonl"))
  ∧ output r = jsonl (all_results (final_state r))
  ∧ length (split_lines (output r)) = 3%nat
  ∧ output r' = output r.
Proof.
  destruct (output_format world_small Demo.fs_ok (str "http://h/") 10 5
              (str "out.jsonl") (str "stale") (str "out.jsonl"))
    as (_ & Hout & _ & _ & Hlen & _ & Hsecond & _); [reflexivity|].
  split; [reflexivity|]. split; [exact Hout|].
  split; [rewrite Hlen; reflexivity|].
  apply (Hsecond (in_anchor_order world_small) Demo.fs_ok).
  - by split_and!.
  - intros l. reflexivity.
  - reflexivity.
  - reflexivity.
Defined.

(** ** Link filtering *)

Lemma set_add_spec x links :
  NoDup links ->
  NoDup (set_add x links) ∧ forall u, u ∈ set_add x links <-> u = x ∨ u ∈ links.
Proof.
  intros Hnd. unfold set_add. destruct (decide (x ∈ links)) as [Hin|Hnin].
  - split; [done|]. intros u. split; [by right|]. by intros [->|?].
  - split.
    + apply NoDup_app. split_and!; [done| |apply NoDup_singleton].
      intros y Hy ->%list_elem_of_singleton. done.
    + intros u. rewrite elem_of_app, list_elem_of_singleton. tauto.
Qed.

(** One anchor: either it yields a link, which is added to the set, or it
    yields none and the set is unchanged; no exception leaves the loop. *)
Lemma links_loop_spec w base_url base_domain :
  raises_only_ValueError w ->
  forall hrefs acc, NoDup acc ->
    exists links,
      links_loop w base_url base_domain hrefs acc = Ok links
      ∧ NoDup links
      ∧ forall u, u ∈ links <->
          u ∈ acc
          ∨ exists a_href, a_href ∈ hrefs
              ∧ internal_link w base_url base_domain a_href u.
Proof.
  intros [Hparse Hjoin]. induction hrefs as [|a hrefs IH]; intros acc Hnd.
  - exists acc. split_and!; [done..|]. intros u. split; [by left|].
    intros [?|(a & Ha & _)]; [done|]. by apply elem_of_nil in Ha.
  - cbn [links_loop].
    assert (forall acc', NoDup acc' ->
              (forall u, u ∈ acc' <->
                 u ∈ acc ∨ internal_link w base_url base_domain a u) ->
              exists links,
                links_loop w base_url base_domain hrefs acc' = Ok links
                ∧ NoDup links
                ∧ forall u, u ∈ links <->
                    u ∈ acc
                    ∨ exists a_href, a_href ∈ a :: hrefs
                        ∧ internal_link w base_url base_domain a_href u)
      as Hnext.
    { intros acc' Hnd' Hacc'. destruct (IH acc' Hnd') as (links & -> & Hl & Hin).
      exists links. split_and!; [done..|]. intros u. rewrite Hin, Hacc'.
      split.
      - intros [[?|?]|(b & Hb & ?)]; [by left| |].
        + right. exists a. split; [by left|done].
        + right. exists b. split; [by right|done].
      - intros [?|(b & Hb & Hlink)]; [by left; left|].
        apply elem_of_cons in Hb as [->|Hb]; [by left; right|].
        right. by exists b. }
    assert ((forall u, ¬ internal_link w base_url base_domain a u) ->
            forall u, u ∈ acc <->
              u ∈ acc ∨ internal_link w base_url base_domain a u) as Hnone.
    { intros Hno u. split; [by left|]. intros [?|?]; [done|]. by destruct (Hno u). }
    destruct (truthy (strip (isspace w) a)) eqn:Htruthy; cbn [andb]; cycle 1.
    { apply Hnext; [done|]. apply Hnone. intros u (Hne & _).
      by destruct (strip (isspace w) a). }
    destruct (startswith_any (strip (isspace w) a) skipped_prefixes) eqn:Hskip;
      cbn [negb]; [|].
    { apply Hnext; [done|]. apply Hnone. intros u (_ & Hs & _).
      rewrite Hs in Hskip. done. }
    unfold link_try.
    destruct (urljoin w base_url (strip (isspace w) a)) as [absolute|e] eqn:Hj;
      cbn [mbind result_bind]; cycle 1.
    { rewrite (Hjoin _ _ _ Hj). cbn [is_ValueError].
      apply Hnext; [done|]. apply Hnone.
      intros u (_ & _ & abs & p & Hj' & _). rewrite Hj in Hj'. done. }
    destruct (urlparse w absolute) as [parsed|e] eqn:Hp;
      cbn [mbind result_bind]; cycle 1.
    { rewrite (Hparse _ _ Hp). cbn [is_ValueError].
      apply Hnext; [done|]. apply Hnone.
      intros u (_ & _ & abs & p & Hj' & Hp' & _).
      rewrite Hj in Hj'. injection Hj' as <-. rewrite Hp in Hp'. done. }
    destruct (bool_decide (scheme parsed ∈ allowed_schemes)
              && bool_decide (netloc parsed = base_domain)) eqn:Htest;
      cbn [mbind result_bind].
    + apply andb_true_iff in Htest as [Hs%bool_decide_eq_true Hn%bool_decide_eq_true].
      destruct (set_add_spec (geturl w (replace_fragment parsed [])) acc Hnd)
        as [Hnd' Hin'].
      apply Hnext; [done|]. intros u. rewrite Hin'. split.
      * intros [->|?]; [right|by left].
        split_and!; [by destruct (strip (isspace w) a)|done|].
        by exists absolute, parsed.
      * intros [?|(_ & _ & abs & p & Hj' & Hp' & _ & _ & ->)]; [by right|].
        rewrite Hj in Hj'. injection Hj' as <-.
        rewrite Hp in Hp'. injection Hp' as <-. by left.
    + apply Hnext; [done|]. apply Hnone.
      intros u (_ & _ & abs & p & Hj' & Hp' & Hs & Hn & _).
      rewrite Hj in Hj'. injection Hj' as <-.
      rewrite Hp in Hp'. injection Hp' as <-.
      apply andb_false_iff in Htest as [Ht%bool_decide_eq_false|Ht%bool_decide_eq_false];
        done.
Qed.

(** C6, amended (link filtering).  For a non-empty document that the parser
    accepts and a base URL, [find_internal_links] returns a list without
    repetitions whose members are exactly the links yielded by the anchors
    that pass the filter: trimmed, not empty, none of the prefixes [#],
    [mailto:], [tel:], [javascript:], resolved against the base to a URL
    with scheme http or https and a netloc equal to the netloc of the base
    (the whole authority as written, not the host alone), its fragment
    removed; anchors failing a step, parse failures included, contribute
    nothing, and a base whose netloc is empty or which does not parse gives
    no link. *)
Theorem link_filtering (w : World) (html_content base_url : pystr)
    (soup : Soup w) (hrefs : list pystr) :
  set_order_lawful w ->
  raises_only_ValueError w ->
  truthy html_content = true ->
  BeautifulSoup w html_content = Ok soup ->
  find_all_a_href w soup = Ok hrefs ->
  exists links,
    find_internal_links w html_content base_url = Ok links
    ∧ NoDup links
    ∧ (forall u, u ∈ links <->
         exists base_domain a_href,
           base_domain_of w base_url = Some base_domain
           ∧ a_href ∈ hrefs
           ∧ internal_link w base_url base_domain a_href u)
    ∧ (base_domain_of w base_url = None -> links = []).
Proof.
  intros Hset Hexn Hhtml Hsoup Hfind.
  unfold find_internal_links, base_domain_of.
  rewrite Hhtml, Hsoup. cbn [negb mbind result_bind].
  destruct (urlparse w base_url) as [parsed|e] eqn:Hp.
  - destruct (truthy (netloc parsed)) eqn:Hn; cbn [negb].
    + rewrite Hfind. cbn [mbind result_bind].
      destruct (links_loop_spec w base_url (netloc parsed) Hexn hrefs [])
        as (links & -> & Hnd & Hin); [apply NoDup_nil_2|].
      cbn [mbind result_bind]. exists (set_order w links).
      pose proof (Hset links Hnd) as Hperm.
      split_and!; [done|by rewrite Hperm| |done].
      intros u. rewrite Hperm, Hin. split.
      * intros [Hnil|(a & Ha & Hl)]; [by apply elem_of_nil in Hnil|].
        by exists (netloc parsed), a.
      * intros (d & a & [= <-] & Ha & Hl). right. by exists a.
    + exists []. split_and!; [done|apply NoDup_nil_2| |done].
      intros u. split; [by intros ?%elem_of_nil|]. by intros (d & a & [=] & _).
  - destruct Hexn as [Hparse _]. rewrite (Hparse _ _ Hp). cbn [is_ValueError].
    exists []. split_and!; [done|apply NoDup_nil_2| |done].
    intros u. split; [by intros ?%elem_of_nil|]. by intros (d & a & [=] & _).
Qed.

(** The stand-ins of the small world never raise. *)
Lemma parse_url_returns u : exists p, Demo.parse_url u = Ok p.
Proof.
  unfold Demo.parse_url.
  repeat match goal with
         | |- context [let '(_, _) := ?x in _] => destruct x
         | |- context [match ?x with _ => _ end] => destruct x
         end; eauto.
Qed.

Lemma join_url_returns b h : exists u, Demo.join_url b h = Ok u.
Proof.
  unfold Demo.join_url.
  destruct (parse_url_returns b) as [pb ->].
  destruct (parse_url_returns h) as [ph ->].
  cbn [mbind result_bind].
  repeat match goal with
         | |- context [if ?x then _ else _] => destruct x
         end; eauto.
Qed.

Lemma demo_raises_only_ValueError site order rejected :
  raises_only_ValueError (Demo.world site order rejected).
Proof.
  split; simpl.
  - intros u e He. destruct (parse_url_returns u) as [p Hp]. congruence.
  - intros b h e He. destruct (join_url_returns b h) as [u Hu]. congruence.
Qed.

(** The filter on the home page of the small site, whose anchors are, in
    order: [/a], [ b#x ] (with blanks around), a mail address, another
    host, and a bare fragment. *)
Lemma link_filtering_witness :
  exists links,
    find_internal_links world_small
      (str "<p>Welcome home</p><a href='/a'>A</a> <a href=' b#x '>B</a><a href='mailto:x@h'>m</a><a href='http://other/'>o</a><a href='#top'>t</a>")
      (str "http://h/") = Ok links
    ∧ NoDup links
    ∧ links = [str "http://h/a"; str "http://h/b"].
Proof.
  destruct (link_filtering world_small
    (str "<p>Welcome home</p><a href='/a'>A</a> <a href=' b#x '>B</a><a href='mailto:x@h'>m</a><a href='http://other/'>o</a><a href='#top'>t</a>")
    (str "http://h/")
    (str "<p>Welcome home</p><a href='/a'>A</a> <a href=' b#x '>B</a><a href='mailto:x@h'>m</a><a href='http://other/'>o</a><a href='#top'>t</a>")
    [str "/a"; str " b#x "; str "mailto:x@h"; str "http://other/"; str "#top"])
    as (links & Hlinks & Hnd & _).
  - intros l _. reflexivity.
  - apply demo_raises_only_ValueError.
  - reflexivity.
  - reflexivity.
  - reflexivity.
  - exists links. split; [exact Hlinks|]. split; [exact Hnd|].
    vm_compute in Hlinks. injection Hlinks as <-. reflexivity.
Defined.

(** C6 as stated fails: the filter compares netlocs, not hosts.  On the
    base [http://h/] the anchors [http://h:80/a] (the same host with the
    default port written out), [http://H/b] (the same host in capitals) and
    [http://u@h/c] (the same host with a user name) pass every step of the
    filter by host, and none of them is returned. *)
Lemma same_host_link_dropped :
  let w := world_small in
  let base_url := str "http://h/" in
  let html_content :=
    str "<a href='http://h:80/a'>A</a><a href='http://H/b'>B</a><a href='http://u@h/c'>C</a>" in
  BeautifulSoup w html_content = Ok html_content
  ∧ find_all_a_href w html_content
    = Ok [str "http://h:80/a"; str "http://H/b"; str "http://u@h/c"]
  ∧ same_host_link w base_url (str "http://h:80/a") (str "http://h:80/a")
  ∧ same_host_link w base_url (str "http://H/b") (str "http://H/b")
  ∧ same_host_link w base_url (str "http://u@h/c") (str "http://u@h/c")
  ∧ find_internal_links w html_content base_url = Ok [].
Proof.
  assert (forall a_href loc pth,
            Demo.parse_url a_href
            = Ok {| scheme := str "http"; netloc := loc; path := pth;
                    params := []; query := []; fragment := [] |} ->
            strip Demo.ascii_space a_href = a_href ->
            a_href ≠ [] ->
            startswith_any a_href skipped_prefixes = false ->
            Demo.join_url (str "http://h/") a_href = Ok a_href ->
            hostname world_small
              {| scheme := str "http"; netloc := loc; path := pth;
                 params := []; query := []; fragment := [] |}
            = Some (str "h") ->
            Demo.unparse_url
              {| scheme := str "http"; netloc := loc; path := pth;
                 params := []; query := []; fragment := [] |} = a_href ->
            same_host_link world_small (str "http://h/") a_href a_href)
    as Hlink.
  { intros a_href loc pth Hparse Hstrip Hne Hskip Hjoin Hhost Hget.
    unfold same_host_link. cbn [isspace world_small Demo.world].
    rewrite Hstrip. split; [done|]. split; [done|].
    eexists _, (str "h"), a_href, _.
    split; [vm_compute; reflexivity|]. split; [vm_compute; reflexivity|].
    split; [exact Hjoin|]. split; [exact Hparse|].
    split; [by left|]. split; [exact Hhost|]. by rewrite <- Hget. }
  split_and!.
  - reflexivity.
  - vm_compute. reflexivity.
  - eapply Hlink; vm_compute; (reflexivity || discriminate).
  - eapply Hlink; vm_compute; (reflexivity || discriminate).
  - eapply Hlink; vm_compute; (reflexivity || discriminate).
  - vm_compute. reflexivity.
Qed.

(** ** Breadth-first order *)

Section BFS.
Context (succ : pystr -> list pystr).

Lemma bfs_levels_nil depth visited : bfs_levels succ depth visited [] = [].
Proof.
  revert visited. induction depth as [|depth IH]; intros visited; [done|].
  cbn [bfs_levels bfs_next_level fst snd app]. apply IH.
Qed.

(** Deeper levels do not change a prefix that the first ones already
    cover. *)
Lemma bfs_levels_more depth : forall m visited level,
  (m ≤ depth)%nat ->
  take m (bfs_levels succ depth visited level)
  = take m (bfs_levels succ (S depth) visited level).
Proof.
  induction depth as [|depth IH]; intros m visited level Hm.
  - by replace m with 0%nat by lia.
  - destruct level as [|u us].
    + by rewrite !bfs_levels_nil.
    + change (bfs_levels succ (S (S depth)) visited (u :: us))
        with ((u :: us) ++
              bfs_levels succ (S depth)
                (fst (bfs_next_level succ visited (u :: us)))
                (snd (bfs_next_level succ visited (u :: us)))).
      change (bfs_levels succ (S depth) visited (u :: us))
        with ((u :: us) ++
              bfs_levels succ depth
                (fst (bfs_next_level succ visited (u :: us)))
                (snd (bfs_next_level succ visited (u :: us)))).
      rewrite !take_app. f_equal. apply IH. simpl. lia.
Qed.

Lemma bfs_next_level_cons visited u us :
  bfs_next_level succ visited (u :: us)
  = (fst (bfs_next_level succ
            (list_to_set (fresh_links visited (succ u)) ∪ visited) us),
     fresh_links visited (succ u)
     ++ snd (bfs_next_level succ
               (list_to_set (fresh_links visited (succ u)) ∪ visited) us)).
Proof.
  cbn [bfs_next_level].
  by destruct (bfs_next_level succ _ us).
Qed.

(** Working off a queue made of the rest of the current level followed by
    the part of the next level found so far visits the nodes level by
    level. *)
Lemma crawl_order_levels budget : forall current next visited,
  crawl_order succ budget (current ++ next) visited
  = take budget
      (current ++
       bfs_levels succ budget
         (fst (bfs_next_level succ visited current))
         (next ++ snd (bfs_next_level succ visited current))).
Proof.
  induction budget as [|budget IH]; intros current next visited; [done|].
  destruct current as [|u current].
  - cbn [bfs_next_level fst snd app]. rewrite app_nil_r.
    destruct next as [|u next].
    + by rewrite bfs_levels_nil.
    + cbn [crawl_order bfs_levels].
      rewrite (IH next (fresh_links visited (succ u))).
      rewrite bfs_next_level_cons. cbn [fst snd app take]. done.
  - cbn [app crawl_order take]. f_equal.
    rewrite <- app_assoc.
    rewrite (IH current (next ++ fresh_links visited (succ u))).
    rewrite bfs_next_level_cons. cbn [fst snd].
    rewrite <- app_assoc.
    rewrite !take_app. f_equal.
    apply bfs_levels_more. lia.
Qed.

Lemma crawl_order_bfs seed budget :
  crawl_order succ budget [seed] {[seed]}
  = take budget (bfs_order succ seed budget).
Proof.
  unfold bfs_order.
  by rewrite (crawl_order_levels budget [] [seed] {[seed]}).
Qed.

End BFS.

(** The loop body, seen from the frontier: with the links obtained for the
    page it ends normally and appends the fresh ones; an exception on the
    way leaves the body. *)
Lemma loop_body_links w min_text_length st u rest :
  queue st = u :: rest ->
  match page_links w min_text_length u with
  | Ok links =>
      snd (loop_body w min_text_length st) = None
      ∧ queue (fst (loop_body w min_text_length st))
        = rest ++ fresh_links (visited_urls st) links
      ∧ visited_urls (fst (loop_body w min_text_length st))
        = list_to_set (fresh_links (visited_urls st) links) ∪ visited_urls st
  | Raise e => snd (loop_body w min_text_length st) = Some e
  end.
Proof.
  intros Hq. unfold page_links, loop_body. rewrite Hq.
  assert (forall s : State,
            snd (s, @None exn) = None
            ∧ queue s = queue s ++ fresh_links (visited_urls st) []
            ∧ visited_urls s = list_to_set (fresh_links (visited_urls st) [])
                               ∪ visited_urls s) as Hskip.
  { intros s. cbn [fresh_links snd]. rewrite app_nil_r. split_and!; [done..|].
    set_solver. }
  destruct (fetch_html w u) as [[html|]|e]; [|apply (Hskip (dequeue u rest st))|done].
  destruct (truthy html); [|apply (Hskip (dequeue u rest st))].
  destruct (clean_html_text w html) as [[cleaned|]|e];
    [|apply (Hskip (dequeue u rest st))|done].
  destruct (truthy cleaned && _); [|apply (Hskip (dequeue u rest st))].
  destruct (find_internal_links w html u) as [links|e]; [|done].
  cbn [fst snd].
  destruct (merge_links_frontier links
              (save {| url := u; text := cleaned |} (dequeue u rest st)))
    as [-> ->].
  done.
Qed.

(** The requests of the loop follow [crawl_order]: up to the exception if
    one leaves the loop, and all of it otherwise. *)
Lemma crawl_loop_order w max_pages min_text_length fuel : forall st,
  (Z.to_nat (max_pages - Z.of_nat (pages_scraped_count st)) ≤ fuel)%nat ->
  exists pre,
    requested (trace (fst (crawl_loop w fuel max_pages min_text_length st)))
    = requested (trace st) ++ pre
    ∧ pre `prefix_of`
        crawl_order (successors w min_text_length)
          (Z.to_nat (max_pages - Z.of_nat (pages_scraped_count st)))
          (queue st) (visited_urls st)
    ∧ (snd (crawl_loop w fuel max_pages min_text_length st) = None ->
       pre = crawl_order (successors w min_text_length)
               (Z.to_nat (max_pages - Z.of_nat (pages_scraped_count st)))
               (queue st) (visited_urls st)).
Proof.
  induction fuel as [|fuel IH]; intros st Hfuel.
  - exists []. replace (Z.to_nat _) with 0%nat by lia.
    cbn [crawl_loop fst snd crawl_order]. by rewrite app_nil_r.
  - cbn [crawl_loop]. unfold loop_cond.
    destruct (queue st) as [|u rest] eqn:Hq.
    { exists []. cbn [fst snd]. rewrite app_nil_r.
      by destruct (Z.to_nat _). }
    case_bool_decide as Hlt; cycle 1.
    { exists []. cbn [fst snd]. rewrite app_nil_r.
      by replace (Z.to_nat _) with 0%nat by lia. }
    pose proof (loop_body_links w min_text_length st u rest Hq) as Hlinks.
    pose proof (loop_body_requested w min_text_length st u rest Hq) as Hreq.
    assert (queue st ≠ []) as Hne by by rewrite Hq.
    pose proof (loop_body_count w min_text_length st Hne) as Hcount.
    replace (Z.to_nat (max_pages - Z.of_nat (pages_scraped_count st)))
      with (S (Z.to_nat (max_pages - Z.of_nat (S (pages_scraped_count st)))))
      by lia.
    cbn [crawl_order].
    destruct (page_links w min_text_length u) as [links|e] eqn:Hpl.
    + assert (successors w min_text_length u = links) as ->
        by (unfold successors; by rewrite Hpl).
      destruct Hlinks as (Hnone & Hqueue & Hvisited).
      destruct (loop_body w min_text_length st) as [st' [e|]];
        cbn [fst snd] in *; [done|].
      destruct (IH st') as (pre & Hpre & Hprefix & Hall); [lia|].
      rewrite Hcount, Hqueue, Hvisited in *.
      exists (u :: pre). split_and!.
      * by rewrite Hpre, Hreq, <- app_assoc.
      * by apply prefix_cons.
      * intros Hend. by rewrite (Hall Hend).
    + destruct (loop_body w min_text_length st) as [st' [e'|]];
        cbn [fst snd] in *; [|done].
      exists [u]. split_and!; [done| |done].
      apply prefix_cons, prefix_nil.
Qed.

(** C3, amended (breadth-first order).  The URLs requested by a run are a
    prefix of the first [max_pages] nodes of the breadth-first traversal,
    from the seed, of the graph in which the out-links of a page are the
    links that the loop obtains for it: those of [find_internal_links], in
    the order of the list it returns, when the page passes the gate, and
    none otherwise.  When the file was cleared and no exception left the
    loop they are exactly those first [max_pages] nodes.  A page's new links
    enter the frontier in the order of that list, which is the iteration
    order of the set of links and need not be the order of the anchors. *)
Theorem crawl_is_bfs (w : World) (fs : FileSystem) (start_url : pystr)
    (max_pages min_text_length : Z) (output_file old_content : pystr) :
  let r := crawl_website_streamlit w fs start_url max_pages min_text_length
             output_file old_content in
  let reference :=
    take (Z.to_nat max_pages)
      (bfs_order (successors w min_text_length) start_url
         (Z.to_nat max_pages)) in
  requested (trace (final_state r)) `prefix_of` reference
  ∧ (clear_fault fs = None -> crawl_error_occurred r = false ->
     requested (trace (final_state r)) = reference)
  ∧ (forall links st,
       queue (merge_links links st)
       = queue st ++ fresh_links (visited_urls st) links).
Proof.
  intros r reference.
  pose (st0 := log_event (EvClear true) (initial_state start_url)).
  destruct (crawl_loop_order w max_pages min_text_length (Z.to_nat max_pages)
              st0) as (pre & Hpre & Hprefix & Hall); [simpl; lia|].
  change (requested (trace st0)) with (@nil pystr) in Hpre.
  change (pages_scraped_count st0) with 0%nat in Hprefix, Hall.
  change (queue st0) with [start_url] in Hprefix, Hall.
  change (visited_urls st0) with ({[start_url]} : gset pystr) in Hprefix, Hall.
  replace (max_pages - Z.of_nat 0) with max_pages in Hprefix, Hall by lia.
  rewrite crawl_order_bfs in Hprefix, Hall.
  cbn [app] in Hpre. fold reference in Hprefix, Hall.
  subst r. unfold crawl_website_streamlit. fold st0.
  split_and!.
  - destruct (clear_fault fs) as [e|]; cbn [final_state].
    { apply prefix_nil. }
    destruct (crawl_loop w (Z.to_nat max_pages) max_pages min_text_length st0)
      as [st [e|]]; cbn [fst snd final_state] in *.
    { by rewrite Hpre. }
    destruct (write_fault fs) as [[e left]|]; cbn [final_state log_event trace];
      by rewrite requested_snoc, app_nil_r, Hpre.
  - intros ->.
    destruct (crawl_loop w (Z.to_nat max_pages) max_pages min_text_length st0)
      as [st [e|]]; cbn [fst snd final_state crawl_error_occurred] in *.
    { done. }
    destruct (write_fault fs) as [[e left]|];
      cbn [final_state log_event trace crawl_error_occurred]; intros _;
      by rewrite requested_snoc, app_nil_r, Hpre, Hall.
  - intros links st. apply merge_links_frontier.
Qed.

(** C3 as stated fails.  On the small site with sets enumerated
    last-inserted first, the home page has the anchors [/a] and then [b];
    a breadth-first traversal taking a page's links in anchor order is
    home, a, b, but the crawl requests home, b, a. *)
Lemma crawl_not_in_anchor_order :
  let r := crawl_website_streamlit world_reversed Demo.fs_ok
             (str "http://h/") 10 5 (str "out.jsonl") [] in
  (BeautifulSoup world_reversed
     (str "<p>Welcome home</p><a href='/a'>A</a> <a href=' b#x '>B</a><a href='mailto:x@h'>m</a><a href='http://other/'>o</a><a href='#top'>t</a>")
   ≫= find_all_a_href world_reversed)
  = Ok [str "/a"; str " b#x "; str "mailto:x@h"; str "http://other/"; str "#top"]
  ∧ take 10 (bfs_order (successors (in_anchor_order world_reversed) 5)
               (str "http://h/") 10)
    = [str "http://h/"; str "http://h/a"; str "http://h/b"]
  ∧ requested (trace (final_state r))
    = [str "http://h/"; str "http://h/b"; str "http://h/a"]
  ∧ requested (trace (final_state r))
    ≠ take 10 (bfs_order (successors (in_anchor_order world_reversed) 5)
                 (str "http://h/") 10).
Proof. vm_compute. split_and!; done. Qed.

(** ** The seed is taken verbatim *)

(** C10 (the seed URL is not normalised).  A run starts with the start URL
    as given in the frontier and in the visited set.  With the start URL
    [http://h/#top], whose page links to [/], the link discovered is the
    same URL without its fragment; being a different string it is not in
    the visited set, so it is enqueued and requested as a second entry and
    the same page is saved twice.  The requested URLs are pairwise
    distinct as strings. *)
Theorem seed_not_normalised :
  (forall start_url,
     queue (initial_state start_url) = [start_url]
     ∧ visited_urls (initial_state start_url) = {[start_url]})
  ∧ exists parsed,
      urlparse world_fragment (str "http://h/#top") = Ok parsed
      ∧ fragment parsed = str "top"
      ∧ geturl world_fragment (replace_fragment parsed []) = str "http://h/"
      ∧ find_internal_links world_fragment
          (str "<p>Welcome home</p><a href='/'>home</a>") (str "http://h/#top")
        = Ok [str "http://h/"]
      ∧ let r := crawl_website_streamlit world_fragment Demo.fs_ok
                   (str "http://h/#top") 10 5 (str "out.jsonl") [] in
        enqueued (trace (final_state r))
        = [str "http://h/#top"; str "http://h/"]
        ∧ requested (trace (final_state r))
          = [str "http://h/#top"; str "http://h/"]
        ∧ NoDup (requested (trace (final_state r)))
        ∧ text <$> all_results (final_state r)
          = [str "Welcome homehome"; str "Welcome homehome"].
Proof.
  split; [done|].
  eexists. split; [reflexivity|]. split; [reflexivity|].
  split; [reflexivity|]. split; [reflexivity|].
  split; [vm_compute; reflexivity|]. split; [vm_compute; reflexivity|].
  split; [|vm_compute; reflexivity].
  apply (no_revisit_requests world_fragment).
Qed.

(** * Further properties of the crawl *)

(** ** Invariants stated on whole iterations *)

Section StepInvariant.
Context (w : World) (max_pages min_text_length : Z).
Context (P : State -> Prop).
Hypothesis P_file : forall ev st,
  is_file_event ev = true -> P st -> P (log_event ev st).
Hypothesis P_body : forall st,
  loop_cond max_pages st = true -> P st ->
  P (fst (loop_body w min_text_length st)).

Lemma crawl_loop_step_invariant fuel st :
  P st -> P (fst (crawl_loop w fuel max_pages min_text_length st)).
Proof.
  revert st. induction fuel as [|fuel IH]; intros st HP; simpl; [done|].
  destruct (loop_cond max_pages st) eqn:Hc; [|done].
  pose proof (P_body st Hc HP) as HP'.
  destruct (loop_body w min_text_length st) as [st' [e|]]; simpl in *; auto.
Qed.

Lemma run_step_invariant fs start_url output_file old_content :
  P (initial_state start_url) ->
  P (final_state (crawl_website_streamlit w fs start_url max_pages
                    min_text_length output_file old_content)).
Proof.
  intros HP. unfold crawl_website_streamlit.
  destruct (clear_fault fs) as [e|]; simpl; [by apply P_file|].
  assert (P (log_event (EvClear true) (initial_state start_url))) as HP1
    by by apply P_file.
  pose proof (crawl_loop_step_invariant (Z.to_nat max_pages) _ HP1) as HP2.
  destruct (crawl_loop w _ _ _ _) as [st [e|]]; simpl in *; [done|].
  destruct (write_fault fs) as [[e left]|]; simpl; by apply P_file.
Qed.
End StepInvariant.

Lemma run_frontier_ok w fs start_url max_pages min_text_length output_file
    old_content :
  frontier_ok (final_state (crawl_website_streamlit w fs start_url max_pages
                              min_text_length output_file old_content)).
Proof.
  apply (run_invariant w max_pages min_text_length frontier_ok).
  - apply frontier_ok_file.
  - intros u rest st' Hq _. by apply frontier_ok_dequeue.
  - apply frontier_ok_save.
  - apply frontier_ok_enqueue.
  - apply frontier_ok_initial.
Qed.

(** What one iteration adds to the results: nothing, or one record for the
    dequeued URL, whose text is not empty and long enough. *)
Lemma loop_body_results w min_text_length st u rest :
  queue st = u :: rest ->
  exists new,
    all_results (fst (loop_body w min_text_length st)) = all_results st ++ new
    ∧ data_saved_count (fst (loop_body w min_text_length st))
      = (data_saved_count st + length new)%nat
    ∧ (new = []
       ∨ exists t, new = [{| url := u; text := t |}]
           ∧ t ≠ [] ∧ min_text_length ≤ Z.of_nat (length t)).
Proof.
  intros Hq. unfold loop_body. rewrite Hq.
  assert (exists new : list PageRecord,
            all_results (dequeue u rest st) = all_results st ++ new
            ∧ data_saved_count (dequeue u rest st)
              = (data_saved_count st + length new)%nat
            ∧ (new = []
               ∨ exists t, new = [{| url := u; text := t |}]
                   ∧ t ≠ [] ∧ min_text_length ≤ Z.of_nat (length t)))
    as Hskip.
  { exists []. simpl. rewrite app_nil_r. split_and!; [done|lia|by left]. }
  destruct (fetch_html w u) as [[html|]|e]; cbn [fst]; try done.
  destruct (truthy html); cbn [fst]; [|done].
  destruct (clean_html_text w html) as [[cleaned|]|e]; cbn [fst]; try done.
  destruct (truthy cleaned) eqn:Ht; cbn [andb fst]; [|done].
  case_bool_decide as Hlen; cbn [fst]; [|done].
  assert (cleaned ≠ []) as Hne by by destruct cleaned.
  exists [{| url := u; text := cleaned |}].
  destruct (find_internal_links w html u) as [links|e]; cbn [fst].
  - destruct (merge_links_counters links
                (save {| url := u; text := cleaned |} (dequeue u rest st)))
      as (_ & -> & ->).
    simpl. split_and!; [done|lia|]. right. by exists cleaned.
  - simpl. split_and!; [done|lia|]. right. by exists cleaned.
Qed.

(** ** The records *)

Lemma run_counter_ok w fs start_url max_pages min_text_length output_file
    old_content :
  counter_ok max_pages
    (final_state (crawl_website_streamlit w fs start_url max_pages
                    min_text_length output_file old_content)).
Proof.
  apply (run_invariant w max_pages min_text_length (counter_ok max_pages)).
  - apply counter_ok_file.
  - intros u rest st' _ Hlt. by apply counter_ok_dequeue.
  - done.
  - intros link st' _. apply counter_ok_enqueue.
  - apply counter_ok_initial.
Qed.

Lemma results_ok_body w max_pages min_text_length st :
  loop_cond max_pages st = true ->
  results_ok min_text_length st ->
  results_ok min_text_length (fst (loop_body w min_text_length st)).
Proof.
  unfold loop_cond. intros Hc (Hcount & Hsub & Hall).
  destruct (queue st) as [|u rest] eqn:Hq; [done|].
  destruct (loop_body_results w min_text_length st u rest Hq)
    as (new & Hres & Hsaved & Hnew).
  pose proof (loop_body_requested w min_text_length st u rest Hq) as Hreq.
  unfold results_ok. rewrite Hres, Hsaved, Hreq, fmap_app, length_app.
  split_and!; [lia| |].
  - apply sublist_app; [done|].
    destruct Hnew as [->|(t & -> & _)]; [apply sublist_nil_l|done].
  - apply Forall_app. split; [done|].
    destruct Hnew as [->|(t & -> & Hne & Hlen)]; [done|].
    by apply Forall_singleton.
Qed.

Lemma run_results_ok w fs start_url max_pages min_text_length output_file
    old_content :
  results_ok min_text_length
    (final_state (crawl_website_streamlit w fs start_url max_pages
                    min_text_length output_file old_content)).
Proof.
  apply (run_step_invariant w max_pages min_text_length
           (results_ok min_text_length)).
  - intros ev st' Hev (? & ? & ?). unfold results_ok. simpl.
    rewrite requested_snoc. destruct ev; try done; by rewrite app_nil_r.
  - apply results_ok_body.
  - split_and!; [done|apply sublist_nil_l|done].
Qed.

(** X1 (the records).  In every run the saved counter equals the number
    of accumulated records and does not exceed the number of pages
    attempted; the URLs of the records are requested URLs, in the order of
    the requests, and no two records have the same URL; every record's
    text is non-empty and at least [min_text_length] long. *)
Theorem saved_records (w : World) (fs : FileSystem) (start_url : pystr)
    (max_pages min_text_length : Z) (output_file old_content : pystr) :
  let st := final_state (crawl_website_streamlit w fs start_url max_pages
                           min_text_length output_file old_content) in
  data_saved_count st = length (all_results st)
  ∧ (data_saved_count st ≤ pages_scraped_count st)%nat
  ∧ (url <$> all_results st) `sublist_of` requested (trace st)
  ∧ NoDup (url <$> all_results st)
  ∧ Forall (fun data => text data ≠ []
                        ∧ min_text_length ≤ Z.of_nat (length (text data)))
      (all_results st).
Proof.
  intros st.
  destruct (run_results_ok w fs start_url max_pages min_text_length
              output_file old_content) as (Hcount & Hsub & Hall).
  fold st in Hcount, Hsub, Hall.
  destruct (run_counter_ok w fs start_url max_pages min_text_length
              output_file old_content) as [Hreq _].
  fold st in Hreq.
  split_and!; [done| |done| |done].
  - rewrite Hcount, Hreq. rewrite <- (length_fmap url).
    by apply sublist_length.
  - eapply sublist_NoDup; [|exact Hsub]. apply no_revisit_requests.
Qed.

(** ** The summary *)

Lemma size_visited st :
  frontier_ok st ->
  size (visited_urls st)
  = (length (requested (trace st)) + length (queue st))%nat.
Proof.
  intros (Hnd & Hin & Heq).
  assert (visited_urls st = list_to_set (enqueued (trace st))) as ->.
  { apply set_eq. intros u. rewrite elem_of_list_to_set. by rewrite Hin. }
  rewrite size_list_to_set by done. by rewrite Heq, length_app.
Qed.

(** X2 (unique URLs).  In every run the size of the visited set, which the
    final message reports as the number of unique URLs encountered, is the
    number of pages attempted plus the number of URLs still waiting in the
    queue. *)
Theorem unique_urls_count (w : World) (fs : FileSystem) (start_url : pystr)
    (max_pages min_text_length : Z) (output_file old_content : pystr) :
  let st := final_state (crawl_website_streamlit w fs start_url max_pages
                           min_text_length output_file old_content) in
  size (visited_urls st)
  = (pages_scraped_count st + length (queue st))%nat
  ∧ (pages_scraped_count st ≤ size (visited_urls st))%nat
  ∧ (1 ≤ size (visited_urls st))%nat.
Proof.
  intros st.
  pose proof (run_frontier_ok w fs start_url max_pages min_text_length
                output_file old_content) as Hok.
  destruct (run_counter_ok w fs start_url max_pages min_text_length
              output_file old_content) as [Hreq _].
  fold st in Hok, Hreq.
  pose proof (size_visited st Hok) as Hsize. rewrite <- Hreq in Hsize.
  split_and!; [done|lia|].
  destruct Hok as (_ & Hin & _).
  assert (start_url ∈ visited_urls st) as Hseed.
  { apply (run_invariant w max_pages min_text_length
             (fun s => start_url ∈ visited_urls s)); try done.
    - intros link s _ Hs. simpl. set_solver.
    - simpl. set_solver. }
  destruct (decide (size (visited_urls st) = 0%nat)) as [Hz|Hz]; [|lia].
  apply size_empty_inv in Hz. set_solver.
Qed.

(** ** What the function returns *)

(** X3 (the returned path).  [crawl_website_streamlit] returns the output
    file's path exactly when the clearing succeeded, no exception left the
    loop and the final write succeeded; it never returns another path, and
    the two error flags are never both set.  When only the final write
    fails with an I/O error it returns [None] with [write_error] set and
    [crawl_error_occurred] not set, the records still in memory. *)
Theorem returned_path (w : World) (fs : FileSystem) (start_url : pystr)
    (max_pages min_text_length : Z) (output_file old_content : pystr) :
  let r := crawl_website_streamlit w fs start_url max_pages min_text_length
             output_file old_content in
  let loop := crawl_loop w (Z.to_nat max_pages) max_pages min_text_length
                (log_event (EvClear true) (initial_state start_url)) in
  (returned r = Ok (Some output_file) <->
   clear_fault fs = None ∧ snd loop = None ∧ write_fault fs = None)
  ∧ (forall p, returned r = Ok (Some p) -> p = output_file)
  ∧ crawl_error_occurred r && write_error r = false
  ∧ (forall e left_behind,
       clear_fault fs = None -> snd loop = None ->
       write_fault fs = Some (e, left_behind) -> is_IOError e = true ->
       returned r = Ok None
       ∧ write_error r = true
       ∧ crawl_error_occurred r = false
       ∧ output r = left_behind
       ∧ all_results (final_state r) = all_results (fst loop)).
Proof.
  intros r loop. subst r loop. unfold crawl_website_streamlit.
  destruct (clear_fault fs) as [e0|]; cbn [returned crawl_error_occurred
    write_error].
  { split_and!.
    - split; [by destruct (is_IOError e0)|by intros (? & _)].
    - intros p. by destruct (is_IOError e0).
    - by rewrite andb_false_r.
    - by intros. }
  destruct (crawl_loop w _ _ _ _) as [st [e1|]]; cbn [fst snd].
  { split_and!; try done.
    - split; [done|by intros (_ & ? & _)]. }
  destruct (write_fault fs) as [[e2 left]|];
    cbn [returned crawl_error_occurred write_error output final_state].
  - split_and!.
    + split; [by destruct (is_IOError e2)|by intros (_ & _ & ?)].
    + intros p. by destruct (is_IOError e2).
    + done.
    + intros e left' _ _ [= <- <-] ->. done.
  - split_and!; try done.
    + by intros p [= <-].
Qed.

(** ** The finish message *)

Lemma final_status_Some w fs start_url max_pages min_text_length output_file
    old_content s :
  final_status max_pages
    (crawl_website_streamlit w fs start_url max_pages min_text_length
       output_file old_content) = Some s ->
  exists st,
    final_state (crawl_website_streamlit w fs start_url max_pages
                   min_text_length output_file old_content)
    = log_event (EvWrite true) st
    ∧ loop_cond max_pages st = false
    ∧ message s = finish_message max_pages st.
Proof.
  unfold final_status, crawl_website_streamlit.
  destruct (clear_fault fs) as [e0|]; cbn [returned crawl_error_occurred
    write_error final_state].
  { destruct (is_IOError e0); done. }
  pose proof (crawl_loop_exits w max_pages min_text_length (Z.to_nat max_pages)
                (log_event (EvClear true) (initial_state start_url))) as Hexit.
  destruct (crawl_loop w _ _ _ _) as [st [e1|]]; cbn [fst snd] in *;
    cbn [returned crawl_error_occurred write_error final_state]; [done|].
  destruct (write_fault fs) as [[e2 left]|];
    cbn [returned crawl_error_occurred write_error final_state].
  { destruct (is_IOError e2); done. }
  cbn [negb andb]. intros [= <-]. exists st. split_and!; [done| |done].
  apply Hexit; [simpl; lia|done].
Qed.

(** X4 (the finish message).  When the success message is shown, it is
    never the plain "Crawl finished" one: either the queue is empty with
    the budget not used up, and the message says that no more links were
    found, or the page counter has reached [max_pages] (and equals it for
    a budget that is not negative), and the message says that the limit
    was reached. *)
Theorem finish_message_cases (w : World) (fs : FileSystem) (start_url : pystr)
    (max_pages min_text_length : Z) (output_file old_content : pystr)
    (s : Summary) :
  let r := crawl_website_streamlit w fs start_url max_pages min_text_length
             output_file old_content in
  final_status max_pages r = Some s ->
  (forall n, message s ≠ FinishedPlain n)
  ∧ (message s = NoMoreLinks (pages_scraped_count (final_state r))
     ∧ queue (final_state r) = []
     ∧ Z.of_nat (pages_scraped_count (final_state r)) < max_pages
     ∨ message s = ReachedMaxPages max_pages
       ∧ max_pages ≤ Z.of_nat (pages_scraped_count (final_state r))
       ∧ (0 ≤ max_pages ->
          Z.of_nat (pages_scraped_count (final_state r)) = max_pages)).
Proof.
  intros r Hs.
  destruct (final_status_Some _ _ _ _ _ _ _ _ Hs) as (st & Hst & Hcond & Hmsg).
  pose proof (run_counter_ok w fs start_url max_pages min_text_length
                output_file old_content) as [_ Hbound].
  fold r in Hst, Hbound. rewrite Hst in *. cbn [log_event queue
    pages_scraped_count] in *.
  rewrite Hmsg. unfold finish_message. unfold loop_cond in Hcond.
  destruct (queue st) as [|u rest] eqn:Hq.
  - rewrite (bool_decide_eq_false_2 ([] ≠ [])) by (intros H; by apply H).
    cbn [negb andb]. case_bool_decide as Hlt.
    + split; [done|]. left. done.
    + rewrite bool_decide_eq_true_2 by lia. split; [done|]. right.
      split_and!; [done|lia|lia].
  - rewrite (bool_decide_eq_true_2 (u :: rest ≠ [])) by done.
    cbn [negb andb]. apply bool_decide_eq_false in Hcond.
    rewrite bool_decide_eq_true_2 by lia. split; [done|]. right.
    split_and!; [done|lia|lia].
Qed.

(** The finish message on the small site: with a budget of ten pages the
    three pages of the site are attempted and the queue runs empty. *)
Lemma finish_message_witness :
  let r := crawl_website_streamlit world_small Demo.fs_ok (str "http://h/")
             10 5 (str "out.jsonl") [] in
  final_status 10 r
  = Some {| message := NoMoreLinks 3; unique_urls := 3; pages_saved := 3 |}
  ∧ queue (final_state r) = [].
Proof.
  pose (r := crawl_website_streamlit world_small Demo.fs_ok (str "http://h/")
               10 5 (str "out.jsonl") []).
  assert (final_status 10 r
          = Some {| message := NoMoreLinks 3; unique_urls := 3;
                    pages_saved := 3 |}) as Hs by (vm_compute; reflexivity).
  destruct (finish_message_cases world_small Demo.fs_ok (str "http://h/") 10 5
              (str "out.jsonl") [] _ Hs) as (_ & [(_ & Hq & _)|(Hm & _)]).
  - split; [exact Hs|exact Hq].
  - discriminate Hm.
Defined.

(** ** Progress updates and delays *)

(** The loop with its progress updates and delays goes through the same
    states as the loop without. *)
Lemma crawl_loop_ui_state w max_pages min_text_length fuel : forall st ui,
  fst (crawl_loop_ui w fuel max_pages min_text_length st ui)
  = crawl_loop w fuel max_pages min_text_length st.
Proof.
  induction fuel as [|fuel IH]; intros st ui; [done|].
  cbn [crawl_loop_ui crawl_loop].
  destruct (loop_cond max_pages st); [|done].
  destruct (loop_body w min_text_length st) as [st' [e|]]; [done|].
  apply IH.
Qed.

Lemma crawl_loop_count_le w max_pages min_text_length fuel : forall st,
  (pages_scraped_count st
   ≤ pages_scraped_count (fst (crawl_loop w fuel max_pages min_text_length st)))%nat.
Proof.
  induction fuel as [|fuel IH]; intros st; [done|]. cbn [crawl_loop].
  destruct (loop_cond max_pages st) eqn:Hc; [|done].
  assert (queue st ≠ []) as Hq by (unfold loop_cond in Hc; by destruct (queue st)).
  pose proof (loop_body_count w min_text_length st Hq) as Hcount.
  destruct (loop_body w min_text_length st) as [st' [e|]]; cbn [fst] in *;
    [lia|].
  specialize (IH st'). lia.
Qed.

Lemma crawl_loop_ui_log w max_pages min_text_length fuel : forall st ui,
  (Z.to_nat (max_pages - Z.of_nat (pages_scraped_count st)) ≤ fuel)%nat ->
  exists n,
    snd (crawl_loop_ui w fuel max_pages min_text_length st ui)
    = ui ++ ui_pattern max_pages (pages_scraped_count st) n
    ∧ pages_scraped_count
        (fst (crawl_loop w fuel max_pages min_text_length st))
      = (pages_scraped_count st + n)%nat
    ∧ (loop_cond max_pages st = true -> (1 ≤ n)%nat).
Proof.
  induction fuel as [|fuel IH]; intros st ui Hfuel.
  - exists 0%nat. cbn [crawl_loop_ui crawl_loop snd fst ui_pattern].
    rewrite app_nil_r. split_and!; [done|lia|].
    unfold loop_cond. destruct (queue st); [done|].
    intros Hlt%bool_decide_eq_true. lia.
  - cbn [crawl_loop_ui crawl_loop].
    destruct (loop_cond max_pages st) eqn:Hc; cycle 1.
    { exists 0%nat. cbn [snd fst ui_pattern]. rewrite app_nil_r.
      split_and!; [done|lia|done]. }
    assert (queue st ≠ []) as Hq
      by (unfold loop_cond in Hc; by destruct (queue st)).
    assert (Z.of_nat (pages_scraped_count st) < max_pages) as Hlt.
    { unfold loop_cond in Hc. destruct (queue st); [done|].
      by apply bool_decide_eq_true in Hc. }
    pose proof (loop_body_count w min_text_length st Hq) as Hcount.
    destruct (loop_body w min_text_length st) as [st' [e|]]; cbn [fst] in *.
    { exists 1%nat. cbn [snd fst ui_pattern].
      split_and!; [done|lia|done]. }
    destruct (IH st' (if loop_cond max_pages st'
                      then (ui ++ [UiProgress (S (pages_scraped_count st))
                                     max_pages]) ++ [UiSleep]
                      else ui ++ [UiProgress (S (pages_scraped_count st))
                                    max_pages]))
      as (n & Hlog & Hn & Hpos); [lia|].
    exists (S n). rewrite Hlog, Hn, Hcount. split_and!; [|lia|lia].
    destruct (loop_cond max_pages st') eqn:Hc'.
    + destruct n as [|n]; [specialize (Hpos eq_refl); lia|].
      cbn [ui_pattern]. by rewrite <- !app_assoc.
    + assert (n = 0%nat) as ->.
      { destruct fuel as [|fuel']; cbn [crawl_loop fst] in Hn; [lia|].
        rewrite Hc' in Hn. cbn [fst] in Hn. lia. }
      cbn [ui_pattern]. by rewrite app_nil_r.
Qed.

Lemma sleeps_ui_pattern max_pages n : forall first,
  sleeps (ui_pattern max_pages first n) = (n - 1)%nat.
Proof.
  induction n as [|n IH]; intros first; [done|].
  destruct n as [|n]; [done|].
  change (ui_pattern max_pages first (S (S n)))
    with (UiProgress (S first) max_pages :: UiSleep
            :: ui_pattern max_pages (S first) (S n)).
  cbn [sleeps]. rewrite IH. lia.
Qed.

Lemma ui_pattern_progress max_pages n : forall first,
  Forall (fun ev => match ev with
                    | UiProgress c m =>
                        (first < c)%nat ∧ (c ≤ first + n)%nat ∧ m = max_pages
                    | UiSleep => True
                    end)
    (ui_pattern max_pages first n).
Proof.
  induction n as [|n IH]; intros first; [by apply Forall_nil|].
  cbn [ui_pattern]. apply Forall_cons. split; [lia|].
  destruct n as [|n]; [by apply Forall_nil|].
  apply Forall_cons. split; [done|].
  eapply Forall_impl; [apply (IH (S first))|].
  intros [c m|]; [|done]. simpl. lia.
Qed.

(** X5 (progress and politeness delay).  The loop with its progress
    updates and sleeps visits the same states as the loop without.  Its log
    is one progress update per page attempted, for the counts 1, 2, ... in
    order, with exactly one sleep between two consecutive updates: the
    delay is taken only when another iteration follows, never after the
    last page and never after an iteration that raised.  At every update
    the count is at least 1 and at most [max_pages], so the division by
    [max_pages] is defined and the ratio is at most 1. *)
Theorem progress_and_delay (w : World) (start_url : pystr)
    (max_pages min_text_length : Z) :
  let st0 := log_event (EvClear true) (initial_state start_url) in
  let out := crawl_loop_ui w (Z.to_nat max_pages) max_pages min_text_length
               st0 [] in
  let attempted := pages_scraped_count (fst (fst out)) in
  fst out = crawl_loop w (Z.to_nat max_pages) max_pages min_text_length st0
  ∧ snd out = ui_pattern max_pages 0 attempted
  ∧ sleeps (snd out) = (attempted - 1)%nat
  ∧ Forall (fun ev => match ev with
                      | UiProgress c m =>
                          (1 ≤ c)%nat ∧ Z.of_nat c ≤ m ∧ m = max_pages
                      | UiSleep => True
                      end) (snd out).
Proof.
  intros st0 out attempted.
  pose proof (crawl_loop_ui_state w max_pages min_text_length
                (Z.to_nat max_pages) st0 []) as Hstate.
  destruct (crawl_loop_ui_log w max_pages min_text_length (Z.to_nat max_pages)
              st0 []) as (n & Hlog & Hn & _); [simpl; lia|].
  fold out in Hstate, Hlog. rewrite <- Hstate in Hn.
  change (pages_scraped_count st0) with 0%nat in Hlog, Hn.
  cbn [app] in Hlog. fold attempted in Hn.
  assert (n = attempted) as -> by lia.
  assert (Z.of_nat attempted ≤ Z.max 0 max_pages) as Hbound.
  { subst attempted. rewrite Hstate.
    apply (crawl_loop_invariant w max_pages min_text_length
             (fun s => Z.of_nat (pages_scraped_count s) ≤ Z.max 0 max_pages));
      try done.
    - intros u rest s _ Hlt Hs. simpl. lia.
    - simpl. lia. }
  split_and!; [done|done|by rewrite Hlog, sleeps_ui_pattern|].
  rewrite Hlog.
  eapply Forall_impl; [apply ui_pattern_progress|].
  intros [c m|]; [|done]. simpl. intros (Hc1 & Hc2 & ->). lia.
Qed.

(** ** Where the URLs of the frontier come from *)

(** Whatever [links_loop] returns was in the set before or is the link of
    an anchor passing the filter; exceptions play no part here. *)
Lemma links_loop_sound w base_url base_domain : forall hrefs acc links,
  links_loop w base_url base_domain hrefs acc = Ok links ->
  NoDup acc ->
  NoDup links
  ∧ forall u, u ∈ links ->
      u ∈ acc
      ∨ exists a_href, a_href ∈ hrefs
          ∧ internal_link w base_url base_domain a_href u.
Proof.
  induction hrefs as [|a hrefs IH]; intros acc links Hloop Hnd.
  - injection Hloop as <-. split; [done|]. by left.
  - cbn [links_loop] in Hloop.
    assert (forall acc',
              links_loop w base_url base_domain hrefs acc' = Ok links ->
              NoDup acc' ->
              (forall u, u ∈ acc' ->
                 u ∈ acc ∨ internal_link w base_url base_domain a u) ->
              NoDup links
              ∧ forall u, u ∈ links ->
                  u ∈ acc
                  ∨ exists a_href, a_href ∈ a :: hrefs
                      ∧ internal_link w base_url base_domain a_href u)
      as Hnext.
    { intros acc' Hloop' Hnd' Hacc'.
      destruct (IH acc' links Hloop' Hnd') as [Hl Hin].
      split; [done|]. intros u Hu.
      destruct (Hin u Hu) as [Hu'|(b & Hb & Hlink)].
      - destruct (Hacc' u Hu') as [?|?]; [by left|].
        right. exists a. split; [by left|done].
      - right. exists b. split; [by right|done]. }
    destruct (truthy (strip (isspace w) a)) eqn:Htruthy; cbn [andb] in Hloop;
      [|apply (Hnext acc); [done..|by left]].
    destruct (startswith_any (strip (isspace w) a) skipped_prefixes) eqn:Hskip;
      cbn [negb] in Hloop; [apply (Hnext acc); [done..|by left]|].
    unfold link_try in Hloop.
    destruct (urljoin w base_url (strip (isspace w) a)) as [absolute|e] eqn:Hj;
      cbn [mbind result_bind] in Hloop; cycle 1.
    { destruct (is_ValueError e); [|done]. apply (Hnext acc); [done..|by left]. }
    destruct (urlparse w absolute) as [parsed|e] eqn:Hp;
      cbn [mbind result_bind] in Hloop; cycle 1.
    { destruct (is_ValueError e); [|done]. apply (Hnext acc); [done..|by left]. }
    destruct (bool_decide (scheme parsed ∈ allowed_schemes)
              && bool_decide (netloc parsed = base_domain)) eqn:Htest;
      cbn [mbind result_bind] in Hloop;
      [|apply (Hnext acc); [done..|by left]].
    apply andb_true_iff in Htest
      as [Hs%bool_decide_eq_true Hn%bool_decide_eq_true].
    destruct (set_add_spec (geturl w (replace_fragment parsed [])) acc Hnd)
      as [Hnd' Hin'].
    apply (Hnext _ Hloop Hnd'). intros u [->|?]%Hin'; [right|by left].
    split_and!; [by destruct (strip (isspace w) a)|done|].
    by exists absolute, parsed.
Qed.

Lemma find_internal_links_sound w html base_url links :
  set_order_lawful w ->
  find_internal_links w html base_url = Ok links ->
  forall u, u ∈ links ->
    exists soup hrefs base_domain a_href,
      BeautifulSoup w html = Ok soup
      ∧ find_all_a_href w soup = Ok hrefs
      ∧ a_href ∈ hrefs
      ∧ base_domain_of w base_url = Some base_domain
      ∧ internal_link w base_url base_domain a_href u.
Proof.
  intros Hset. unfold find_internal_links, base_domain_of.
  destruct (truthy html); cbn [negb];
    [|by intros [= <-] u ?%elem_of_nil].
  destruct (BeautifulSoup w html) as [soup|e] eqn:Hsoup;
    cbn [mbind result_bind]; [|done].
  destruct (urlparse w base_url) as [parsed|e]; cycle 1.
  { destruct (is_ValueError e); [|done]. by intros [= <-] u ?%elem_of_nil. }
  destruct (truthy (netloc parsed)); cbn [negb];
    [|by intros [= <-] u ?%elem_of_nil].
  destruct (find_all_a_href w soup) as [hrefs|e] eqn:Hhrefs;
    cbn [mbind result_bind]; [|done].
  destruct (links_loop w base_url (netloc parsed) hrefs []) as [found|e]
    eqn:Hloop; cbn [mbind result_bind]; [|done].
  intros [= <-] u Hu.
  destruct (links_loop_sound w base_url (netloc parsed) hrefs [] found Hloop)
    as [Hnd Hin]; [apply NoDup_nil_2|].
  rewrite (Hset found Hnd) in Hu.
  destruct (Hin u Hu) as [?%elem_of_nil|(a & Ha & Hlink)]; [done|].
  exists soup, hrefs, (netloc parsed), a. by rewrite Hhrefs.
Qed.

Lemma fresh_links_subseteq visited links u :
  u ∈ fresh_links visited links -> u ∈ links ∧ u ∉ visited.
Proof.
  revert visited. induction links as [|l links IH]; intros visited; simpl.
  - by intros ?%elem_of_nil.
  - destruct (decide (l ∈ visited)).
    + intros [? ?]%IH. split; [by right|done].
    + intros [->|[? ?]%IH]%elem_of_cons; [split; [by left|done]|].
      split; [by right|set_solver].
Qed.

Lemma merge_links_enqueued links st :
  enqueued (trace (merge_links links st))
  = enqueued (trace st) ++ fresh_links (visited_urls st) links.
Proof.
  revert st. induction links as [|link links IH]; intros st; simpl.
  - by rewrite app_nil_r.
  - destruct (decide (link ∈ visited_urls st)); [apply IH|].
    rewrite IH. simpl. rewrite enqueued_snoc. by rewrite <- app_assoc.
Qed.

(** One iteration, seen from the frontier: the head is dequeued and
    requested, and what is enqueued are unvisited links discovered on it. *)
Lemma loop_body_frontier w min_text_length st u rest :
  set_order_lawful w ->
  queue st = u :: rest ->
  exists new,
    requested (trace (fst (loop_body w min_text_length st)))
    = requested (trace st) ++ [u]
    ∧ enqueued (trace (fst (loop_body w min_text_length st)))
      = enqueued (trace st) ++ new
    ∧ queue (fst (loop_body w min_text_length st)) = rest ++ new
    ∧ forall x, x ∈ new ->
        discovered_on w min_text_length u x ∧ x ∉ visited_urls st.
Proof.
  intros Hset Hq.
  pose proof (loop_body_requested w min_text_length st u rest Hq) as Hreq.
  unfold loop_body in *. rewrite Hq in *.
  assert (exists new : list pystr,
            requested (trace (dequeue u rest st)) = requested (trace st) ++ [u]
            ∧ enqueued (trace (dequeue u rest st)) = enqueued (trace st) ++ new
            ∧ queue (dequeue u rest st) = rest ++ new
            ∧ forall x, x ∈ new ->
                discovered_on w min_text_length u x ∧ x ∉ visited_urls st)
    as Hskip.
  { exists []. simpl. rewrite enqueued_snoc, requested_snoc, !app_nil_r.
    split_and!; [done..|]. by intros x ?%elem_of_nil. }
  destruct (fetch_html w u) as [[html|]|e] eqn:Hfetch; cbn [fst] in *;
    try done.
  destruct (truthy html) eqn:Hhtml; cbn [fst] in *; [|done].
  destruct (clean_html_text w html) as [[cleaned|]|e] eqn:Hclean;
    cbn [fst] in *; try done.
  destruct (truthy cleaned && _) eqn:Hgate; cbn [fst] in *; [|done].
  destruct (find_internal_links w html u) as [links|e] eqn:Hfind;
    cbn [fst] in *; [|done].
  exists (fresh_links (visited_urls st) links).
  rewrite merge_links_enqueued.
  destruct (merge_links_frontier links
              (save {| url := u; text := cleaned |} (dequeue u rest st)))
    as [-> _].
  simpl. rewrite enqueued_snoc, app_nil_r.
  split_and!; [done..|].
  intros x [Hx Hfresh]%fresh_links_subseteq. split; [|done].
  destruct (find_internal_links_sound w html u links Hset Hfind x Hx)
    as (soup & hrefs & d & a & Hsoup & Hhrefs & Ha & Hd & Hlink).
  exists html, soup, hrefs, d, a. split_and!; try done.
  unfold saved_text. rewrite Hfetch, Hhtml, Hclean, Hgate. by eexists.
Qed.

(** The invariant behind the provenance of URLs. *)
Lemma provenance_body w max_pages min_text_length seed st :
  set_order_lawful w ->
  loop_cond max_pages st = true ->
  linked_from_earlier w min_text_length seed (requested (trace st))
  ∧ (forall x, x ∈ queue st ->
       x = seed ∨ exists page_url, page_url ∈ requested (trace st)
                     ∧ discovered_on w min_text_length page_url x) ->
  linked_from_earlier w min_text_length seed
    (requested (trace (fst (loop_body w min_text_length st))))
  ∧ (forall x, x ∈ queue (fst (loop_body w min_text_length st)) ->
       x = seed
       ∨ exists page_url,
           page_url ∈ requested (trace (fst (loop_body w min_text_length st)))
           ∧ discovered_on w min_text_length page_url x).
Proof.
  intros Hset Hc [Hreq Hqueue]. unfold loop_cond in Hc.
  destruct (queue st) as [|u rest] eqn:Hq; [done|].
  destruct (loop_body_frontier w min_text_length st u rest Hset Hq)
    as (new & -> & _ & -> & Hnew).
  split.
  - intros i x Hi. destruct (decide (i < length (requested (trace st)))%nat)
      as [Hlt|Hge].
    + rewrite lookup_app_l in Hi by done.
      destruct (Hreq i x Hi) as [?|(j & page & Hj & Hpage & Hd)]; [by left|].
      right. exists j, page. split_and!; [done| |done].
      rewrite lookup_app_l; [done|lia].
    + rewrite lookup_app_r in Hi by lia.
      destruct (i - length (requested (trace st)))%nat as [|k] eqn:Hk;
        [|by destruct k].
      injection Hi as <-.
      destruct (Hqueue u) as [?|(page & Hpage & Hd)]; [by left|by left|].
      right. apply list_elem_of_lookup in Hpage as [j Hj].
      exists j, page. split_and!; [|by rewrite lookup_app_l
                                          by by eapply lookup_lt_Some|done].
      apply lookup_lt_Some in Hj. lia.
  - intros x [Hx|Hx]%elem_of_app.
    + destruct (Hqueue x) as [?|(page & Hpage & Hd)]; [by right|by left|].
      right. exists page. split; [|done]. apply elem_of_app. by left.
    + right. exists u. split; [|by apply Hnew].
      apply elem_of_app. right. by left.
Qed.

(** X6 (provenance).  When a set enumerates its elements, every URL
    requested in a run is the start URL or was discovered on a page
    requested earlier in the same run: that page was fetched as HTML and
    saved, and its document has an anchor that passes the link filter
    against the page's URL and gives the URL in question.  The same holds
    for the URLs still waiting in the queue. *)
Theorem requested_provenance (w : World) (fs : FileSystem) (start_url : pystr)
    (max_pages min_text_length : Z) (output_file old_content : pystr) :
  set_order_lawful w ->
  let st := final_state (crawl_website_streamlit w fs start_url max_pages
                           min_text_length output_file old_content) in
  linked_from_earlier w min_text_length start_url (requested (trace st))
  ∧ (forall x, x ∈ queue st ->
       x = start_url
       ∨ exists page_url, page_url ∈ requested (trace st)
           ∧ discovered_on w min_text_length page_url x).
Proof.
  intros Hset st.
  apply (run_step_invariant w max_pages min_text_length
           (fun s => linked_from_earlier w min_text_length start_url
                       (requested (trace s))
                     ∧ (forall x, x ∈ queue s ->
                          x = start_url
                          ∨ exists page_url, page_url ∈ requested (trace s)
                              ∧ discovered_on w min_text_length page_url x))).
  - intros ev s Hev [Hreq Hqueue]. simpl. rewrite requested_snoc.
    destruct ev; try done; by rewrite app_nil_r.
  - intros s Hc Hs. by apply (provenance_body w max_pages).
  - simpl. split; [by intros i u ?|].
    intros x ->%list_elem_of_singleton. by left.
Qed.

(** The provenance theorem on the small site: the second URL requested,
    page A, was discovered on the home page, requested before it.  Nothing
    is discovered on page B, whose document has no anchor. *)
Lemma requested_provenance_witness :
  let st := final_state (crawl_website_streamlit world_small Demo.fs_ok
                           (str "http://h/") 10 5 (str "out.jsonl") []) in
  requested (trace st) !! 1%nat = Some (str "http://h/a")
  ∧ (str "http://h/a" = str "http://h/"
     ∨ exists j page_url,
         (j < 1)%nat ∧ requested (trace st) !! j = Some page_url
         ∧ discovered_on world_small 5 page_url (str "http://h/a"))
  ∧ (forall u, ¬ discovered_on world_small 5 (str "http://h/b") u).
Proof.
  destruct (requested_provenance world_small Demo.fs_ok (str "http://h/") 10 5
              (str "out.jsonl") []) as [Hreq _].
  - intros l _. reflexivity.
  - split; [vm_compute; reflexivity|]. split.
    + apply (Hreq 1%nat). vm_compute. reflexivity.
    + intros u (html & soup & hrefs & d & a & Hfetch & _ & Hsoup & Hhrefs
                & Ha & _).
      change (Ok (Some (str "<p>Page B text</p>")) = Ok (Some html)) in Hfetch.
      injection Hfetch as <-.
      change (Ok (str "<p>Page B text</p>") = Ok soup) in Hsoup.
      injection Hsoup as <-.
      change (Ok [] = Ok hrefs) in Hhrefs. injection Hhrefs as <-.
      by apply elem_of_nil in Ha.
Defined.

(** ** Staying on the site *)

Lemma base_domain_of_nonempty w u d : base_domain_of w u = Some d -> d ≠ [].
Proof.
  unfold base_domain_of. destruct (urlparse w u) as [p|e]; [|done].
  destruct (netloc p); [done|]. by intros [= <-].
Qed.

Lemma discovered_on_same_site w min_text_length page_url d x :
  netloc_stable w ->
  base_domain_of w page_url = Some d ->
  discovered_on w min_text_length page_url x ->
  base_domain_of w x = Some d.
Proof.
  intros Hstable Hpage (html & soup & hrefs & d' & a & _ & _ & _ & _ & _ & Hd'
                        & _ & _ & absolute & parsed & _ & Hp & Hs & Hn & ->).
  rewrite Hpage in Hd'. injection Hd' as <-.
  rewrite <- Hn. apply (Hstable absolute); [done..|].
  rewrite Hn. by apply (base_domain_of_nonempty w page_url).
Qed.

(** X7 (staying on the site).  When a set enumerates its elements and
    [urlparse] gives back the netloc of the URLs that [geturl] puts
    together, every URL that enters the visited set in a run whose start
    URL has the netloc [d] has the netloc [d] as well: the crawl never
    enqueues, and so never requests, a URL of another site. *)
Theorem same_site (w : World) (fs : FileSystem) (start_url d : pystr)
    (max_pages min_text_length : Z) (output_file old_content : pystr) :
  set_order_lawful w ->
  netloc_stable w ->
  base_domain_of w start_url = Some d ->
  let st := final_state (crawl_website_streamlit w fs start_url max_pages
                           min_text_length output_file old_content) in
  (forall x, x ∈ visited_urls st -> base_domain_of w x = Some d)
  ∧ (forall x, x ∈ requested (trace st) -> base_domain_of w x = Some d).
Proof.
  intros Hset Hstable Hseed st.
  assert (frontier_ok st
          ∧ forall x, x ∈ enqueued (trace st) -> base_domain_of w x = Some d)
    as [(_ & Hin & Heq) Hsite].
  { apply (run_step_invariant w max_pages min_text_length
             (fun s => frontier_ok s
                       ∧ forall x, x ∈ enqueued (trace s) ->
                           base_domain_of w x = Some d)).
    - intros ev s Hev [Hok Hs]. split; [by apply frontier_ok_file|].
      simpl. rewrite enqueued_snoc. destruct ev; try done; by rewrite app_nil_r.
    - intros s Hc [Hok Hs]. split.
      + apply (loop_body_invariant w max_pages min_text_length frontier_ok);
          try done.
        * intros u rest s' Hq _. by apply frontier_ok_dequeue.
        * apply frontier_ok_enqueue.
      + unfold loop_cond in Hc. destruct (queue s) as [|u rest] eqn:Hq; [done|].
        destruct (loop_body_frontier w min_text_length s u rest Hset Hq)
          as (new & _ & -> & _ & Hnew).
        intros x [Hx|Hx]%elem_of_app; [by apply Hs|].
        apply (discovered_on_same_site w min_text_length u);
          [done| |by apply Hnew].
        apply Hs. destruct Hok as (_ & _ & ->). rewrite Hq.
        apply elem_of_app. right. by left.
    - split; [apply frontier_ok_initial|].
      simpl. by intros x ->%list_elem_of_singleton. }
  split.
  - intros x Hx. apply Hsite. by apply Hin.
  - intros x Hx. apply Hsite. rewrite Heq. apply elem_of_app. by left.
Qed.

(** The stand-in parser of the small world gives back the netloc. *)
Lemma break_at_fst P s : Forall (fun c => P c = false) (fst (Demo.break_at P s)).
Proof.
  induction s as [|c s IH]; simpl; [done|].
  destruct (P c) eqn:Hc; simpl; [done|].
  destruct (Demo.break_at P s) as [a b]. simpl in *. by apply Forall_cons.
Qed.

Lemma break_at_app P a tail :
  Forall (fun c => P c = false) a ->
  (tail = [] ∨ exists c t, tail = c :: t ∧ P c = true) ->
  Demo.break_at P (a ++ tail) = (a, tail).
Proof.
  intros Ha Htail. induction Ha as [|c a Hc Ha IH]; simpl.
  - destruct Htail as [->|(c & t & -> & Hc)]; simpl; [done|]. by rewrite Hc.
  - by rewrite Hc, IH.
Qed.

Lemma parse_url_netloc u p :
  Demo.parse_url u = Ok p ->
  Forall (fun c => bool_decide (c ∈ str "/?#") = false) (netloc p).
Proof.
  unfold Demo.parse_url.
  destruct (match Demo.break_at (Demo.is_char (Demo.ch ":")) u with
            | (c :: pre, _ :: post) =>
                if (Demo.is_lower_alpha c || Demo.is_upper_alpha c)
                   && forallb Demo.is_scheme_char pre
                then (c :: pre, post) else ([], u)
            | _ => ([], u)
            end) as [sch rest].
  pose proof (break_at_fst (fun c => bool_decide (c ∈ str "/?#")) (drop 2 rest))
    as Hloc.
  destruct (startswith rest (str "//")).
  - destruct (Demo.break_at _ (drop 2 rest)) as [loc rest1]. simpl in Hloc.
    destruct (Demo.break_at _ rest1) as [rest2 frag].
    destruct (Demo.break_at _ rest2) as [pth qry].
    by intros [= <-].
  - destruct (Demo.break_at _ rest) as [rest2 frag].
    destruct (Demo.break_at _ rest2) as [pth qry].
    by intros [= <-].
Qed.

Lemma parse_first_stage sch X :
  sch ∈ allowed_schemes ->
  (let (l, l0) :=
        Demo.break_at (Demo.is_char (Demo.ch ":"))
          (sch ++ str ":" ++ str "//" ++ X) in
      match l with
      | [] => ([], sch ++ str ":" ++ str "//" ++ X)
      | c :: pre =>
          match l0 with
          | [] => ([], sch ++ str ":" ++ str "//" ++ X)
          | _ :: post =>
              if
               (Demo.is_lower_alpha c || Demo.is_upper_alpha c) &&
               forallb Demo.is_scheme_char pre
              then (c :: pre, post)
              else ([], sch ++ str ":" ++ str "//" ++ X)
          end
      end) = (sch, str "//" ++ X).
Proof.
  intros Hsch.
  apply elem_of_cons in Hsch as [->|Hsch];
    [|apply list_elem_of_singleton in Hsch as ->]; reflexivity.
Qed.

Lemma parse_url_http sch loc tail :
  sch ∈ allowed_schemes ->
  Forall (fun c => bool_decide (c ∈ str "/?#") = false) loc ->
  (tail = []
   ∨ exists c t, tail = c :: t ∧ bool_decide (c ∈ str "/?#") = true) ->
  exists p, Demo.parse_url (sch ++ str ":" ++ str "//" ++ loc ++ tail) = Ok p
            ∧ netloc p = loc.
Proof.
  intros Hsch Hloc Htail. unfold Demo.parse_url.
  pose proof (break_at_app _ loc tail Hloc Htail) as Hbreak.
  rewrite (parse_first_stage sch (loc ++ tail) Hsch).
  assert (forall X, startswith (str "//" ++ X) (str "//") = true) as ->
    by (intros X; by destruct X).
  change (drop 2 (str "//" ++ loc ++ tail)) with (loc ++ tail).
  rewrite Hbreak.
  destruct (Demo.break_at _ tail) as [rest2 frag].
  destruct (Demo.break_at _ rest2) as [pth qry].
  eexists. split; [reflexivity|done].
Qed.

Lemma unparse_url_shape p :
  scheme p ≠ [] -> netloc p ≠ [] ->
  exists tail,
    Demo.unparse_url (replace_fragment p [])
    = scheme p ++ str ":" ++ str "//" ++ netloc p ++ tail
    ∧ (tail = []
       ∨ exists c t, tail = c :: t ∧ bool_decide (c ∈ str "/?#") = true).
Proof.
  intros Hs Hn. unfold Demo.unparse_url, replace_fragment.
  cbn [scheme netloc path params query fragment truthy].
  assert (truthy (netloc p) = true) as -> by by destruct (netloc p).
  assert (truthy (scheme p) = true) as -> by by destruct (scheme p).
  set (u := path p ++ (if truthy (params p) then str ";" ++ params p else [])).
  assert (exists path',
            (if truthy u && negb (startswith u (str "/"))
             then str "/" ++ u else u) = path'
            ∧ (path' = []
               ∨ exists c t, path' = c :: t
                   ∧ bool_decide (c ∈ str "/?#") = true))
    as (path' & -> & Hpath).
  { destruct (truthy u && negb (startswith u (str "/"))) eqn:Hc.
    - eexists. split; [done|]. right. by exists 47%N, u.
    - exists u. split; [done|]. destruct u as [|c t]; [by left|]. right.
      exists c, t. split; [done|]. cbn [truthy andb] in Hc.
      apply negb_false_iff in Hc. cbn [startswith] in Hc.
      change (str "/") with [47%N] in Hc. cbn [startswith] in Hc.
      apply andb_true_iff in Hc as [Hc%bool_decide_eq_true _]. subst c.
      by vm_compute. }
  destruct (truthy (query p)) eqn:Hq.
  - exists (path' ++ str "?" ++ query p). split; [by rewrite <- !app_assoc|].
    destruct Hpath as [->|(c & t & -> & Hc)].
    + right. exists 63%N, (query p). by split.
    + right. exists c, (t ++ str "?" ++ query p). by split.
  - exists path'. split; [done|done].
Qed.

Lemma demo_netloc_stable site order rejected :
  netloc_stable (Demo.world site order rejected).
Proof.
  intros absolute parsed Hp Hs Hn. cbn [urlparse Demo.world] in Hp.
  unfold base_domain_of. cbn [urlparse geturl Demo.world].
  destruct (unparse_url_shape parsed) as (tail & -> & Htail); [|done|].
  { intros Hempty. rewrite Hempty in Hs.
    apply elem_of_cons in Hs as [Hs|Hs]; [done|].
    by apply list_elem_of_singleton in Hs. }
  destruct (parse_url_http (scheme parsed) (netloc parsed) tail Hs
              (parse_url_netloc _ _ Hp) Htail) as (p' & -> & ->).
  by destruct (netloc parsed).
Qed.

(** Staying on the small site: everything requested has the netloc [h];
    the link to the other host on the home page is never requested. *)
Lemma same_site_witness :
  let st := final_state (crawl_website_streamlit world_small Demo.fs_ok
                           (str "http://h/") 10 5 (str "out.jsonl") []) in
  base_domain_of world_small (str "http://h/") = Some (str "h")
  ∧ (forall x, x ∈ requested (trace st) ->
       base_domain_of world_small x = Some (str "h"))
  ∧ str "http://other/" ∉ requested (trace st).
Proof.
  destruct (same_site world_small Demo.fs_ok (str "http://h/") (str "h") 10 5
              (str "out.jsonl") []) as [_ Hreq].
  - intros l _. reflexivity.
  - apply demo_netloc_stable.
  - reflexivity.
  - split; [reflexivity|]. split; [exact Hreq|].
    intros Hin. apply Hreq in Hin. vm_compute in Hin. discriminate Hin.
Defined.

(** ** Pages that yield nothing *)

(** X8 (no content type).  When lower-casing the empty string gives the
    empty string, a response without a Content-Type header is never taken
    as HTML: [fetch_html] returns [None] whatever its body, so the page is
    counted as attempted and nothing of it is saved or followed. *)
Theorem missing_content_type (w : World) (url : pystr) (response : Response)
    (min_text_length : Z) (st : State) (rest : list pystr) :
  str_lower w [] = [] ->
  session_get w url = Ok response ->
  header_content_type response = None ->
  queue st = url :: rest ->
  fetch_html w url = Ok None
  ∧ loop_body w min_text_length st = (dequeue url rest st, None).
Proof.
  intros Hlower Hget Hheader Hq.
  assert (fetch_html w url = Ok None) as Hfetch.
  { unfold fetch_html, fetch_html_try. rewrite Hget. cbn [mbind result_bind].
    destruct (raise_for_status response) as [[]|e]; cbn [mbind result_bind];
      [|by destruct e].
    rewrite Hheader. cbn [default]. change (str "") with (@nil N).
    rewrite Hlower. done. }
  split; [done|]. unfold loop_body. by rewrite Hq, Hfetch.
Qed.

(** A response without header on the small world. *)
Lemma missing_content_type_witness :
  let w := Demo.world
             [(str "http://h/",
               {| status_code := 200; header_content_type := None;
                  response_text := str "<p>Welcome home</p>" |})]
             (fun l => l) [] in
  fetch_html w (str "http://h/") = Ok None
  ∧ loop_body w 5 (initial_state (str "http://h/"))
    = (dequeue (str "http://h/") [] (initial_state (str "http://h/")), None).
Proof.
  apply (missing_content_type _ (str "http://h/")
           {| status_code := 200; header_content_type := None;
              response_text := str "<p>Welcome home</p>" |});
    reflexivity.
Defined.

(** X9 (failed extraction).  A page fetched as HTML from which no text
    comes out, because its body is empty, because the extraction raises, or
    because the extracted text is empty, is only dequeued and counted: no
    record is added, no link is looked for, and no exception leaves the
    loop body, so the loop goes on. *)
Theorem extraction_failure (w : World) (min_text_length : Z) (st : State)
    (current_url : pystr) (rest : list pystr) (html : pystr) :
  queue st = current_url :: rest ->
  fetch_html w current_url = Ok (Some html) ->
  html = []
  ∨ (exists e, readable_text w html = Raise e)
  ∨ readable_text w html = Ok [] ->
  loop_body w min_text_length st = (dequeue current_url rest st, None)
  ∧ all_results (fst (loop_body w min_text_length st)) = all_results st
  ∧ queue (fst (loop_body w min_text_length st)) = rest
  ∧ visited_urls (fst (loop_body w min_text_length st)) = visited_urls st.
Proof.
  intros Hq Hfetch Hcase.
  assert (loop_body w min_text_length st = (dequeue current_url rest st, None))
    as ->; [|done].
  unfold loop_body, clean_html_text. rewrite Hq, Hfetch.
  destruct Hcase as [->|[[e He]|He]]; [done| |].
  - destruct (truthy html); [|done]. rewrite He. done.
  - destruct (truthy html); [|done]. rewrite He. done.
Qed.

(** The page [/empty] of the small site, whose extracted text is empty. *)
Lemma extraction_failure_witness :
  let st := initial_state (str "http://h/empty") in
  loop_body world_small 0 st = (dequeue (str "http://h/empty") [] st, None).
Proof.
  apply (extraction_failure world_small 0 _ (str "http://h/empty") []
           (str "<p></p>")); [reflexivity|reflexivity|].
  right. right. reflexivity.
Defined.

(** ** Merging links *)

Lemma fresh_links_complete visited links l :
  l ∈ links -> l ∈ visited ∨ l ∈ fresh_links visited links.
Proof.
  revert visited. induction links as [|x links IH]; intros visited Hl.
  - by apply elem_of_nil in Hl.
  - cbn [fresh_links]. destruct (decide (x ∈ visited)) as [Hx|Hx].
    + apply elem_of_cons in Hl as [->|Hl]; [by left|by apply IH].
    + apply elem_of_cons in Hl as [->|Hl]; [right; by left|].
      destruct (IH ({[x]} ∪ visited) Hl) as [Hin|Hin].
      * apply elem_of_union in Hin as [->%elem_of_singleton|?];
          [right; by left|by left].
      * right. by right.
Qed.

Lemma merge_links_known links st :
  (forall l, l ∈ links -> l ∈ visited_urls st) -> merge_links links st = st.
Proof.
  induction links as [|x links IH]; intros Hall; [done|].
  cbn [merge_links]. rewrite decide_True by (apply Hall; by left).
  apply IH. intros l Hl. apply Hall. by right.
Qed.

Lemma merge_links_app links1 links2 st :
  merge_links (links1 ++ links2) st
  = merge_links links2 (merge_links links1 st).
Proof.
  revert st. induction links1 as [|x links1 IH]; intros st; [done|].
  cbn [app merge_links]. by destruct (decide (x ∈ visited_urls st)).
Qed.

Lemma fresh_links_NoDup visited links : NoDup (fresh_links visited links).
Proof.
  revert visited. induction links as [|x links IH]; intros visited;
    cbn [fresh_links]; [apply NoDup_nil_2|].
  destruct (decide (x ∈ visited)); [apply IH|].
  apply NoDup_cons_2; [|apply IH].
  intros [_ Hx]%fresh_links_subseteq. set_solver.
Qed.

Lemma fresh_links_sublist visited links :
  fresh_links visited links `sublist_of` links.
Proof.
  revert visited. induction links as [|x links IH]; intros visited;
    cbn [fresh_links]; [done|].
  destruct (decide (x ∈ visited)).
  - apply sublist_cons. apply IH.
  - apply sublist_skip. apply IH.
Qed.

(** X10 (merging links).  Merging a list of links appends to the queue,
    behind what was in it, a list of links that is exactly what it adds to
    the visited set and to the enqueue events: the links of the list that
    were not visited, each once, in the order of their first occurrence.
    Counters and records are untouched.  So every link of the list is
    visited afterwards; merging the same list again changes nothing, and
    merging a concatenation is merging its parts in turn. *)
Theorem merge_links_idempotent (links : list pystr) (st : State) :
  (exists added,
     queue (merge_links links st) = queue st ++ added
     ∧ visited_urls (merge_links links st)
       = list_to_set added ∪ visited_urls st
     ∧ enqueued (trace (merge_links links st))
       = enqueued (trace st) ++ added
     ∧ requested (trace (merge_links links st)) = requested (trace st)
     ∧ NoDup added
     ∧ added `sublist_of` links
     ∧ (forall l, l ∈ added <-> l ∈ links ∧ l ∉ visited_urls st))
  ∧ pages_scraped_count (merge_links links st) = pages_scraped_count st
  ∧ data_saved_count (merge_links links st) = data_saved_count st
  ∧ all_results (merge_links links st) = all_results st
  ∧ (forall l, l ∈ links -> l ∈ visited_urls (merge_links links st))
  ∧ merge_links links (merge_links links st) = merge_links links st
  ∧ (forall links', merge_links (links ++ links') st
                    = merge_links links' (merge_links links st)).
Proof.
  destruct (merge_links_frontier links st) as [Hq Hv].
  assert (forall l, l ∈ links -> l ∈ visited_urls (merge_links links st))
    as Hcover.
  { intros l Hl. rewrite Hv.
    destruct (fresh_links_complete (visited_urls st) links l Hl); set_solver. }
  assert (pages_scraped_count (merge_links links st) = pages_scraped_count st
          ∧ data_saved_count (merge_links links st) = data_saved_count st
          ∧ all_results (merge_links links st) = all_results st)
    as (Hc & Hd & Ha).
  { apply (merge_links_invariant
             (fun s => pages_scraped_count s = pages_scraped_count st
                       ∧ data_saved_count s = data_saved_count st
                       ∧ all_results s = all_results st)); done. }
  split_and!; try done.
  - exists (fresh_links (visited_urls st) links).
    split_and!; [done|done|apply merge_links_enqueued
                |apply merge_links_requested|apply fresh_links_NoDup
                |apply fresh_links_sublist|].
    intros l. split; [apply fresh_links_subseteq|].
    intros [Hl Hnew].
    by destruct (fresh_links_complete (visited_urls st) links l Hl).
  - by apply merge_links_known.
  - intros links'. apply merge_links_app.
Qed.

(** ** No control character in the file *)





(** ** The budget *)

(** Once the fuel covers the remaining budget, more fuel changes nothing. *)
Lemma crawl_loop_fuel w max_pages min_text_length fuel : forall fuel' st,
  (Z.to_nat (max_pages - Z.of_nat (pages_scraped_count st)) ≤ fuel)%nat ->
  (Z.to_nat (max_pages - Z.of_nat (pages_scraped_count st)) ≤ fuel')%nat ->
  crawl_loop w fuel max_pages min_text_length st
  = crawl_loop w fuel' max_pages min_text_length st.
Proof.
  induction fuel as [|fuel IH]; intros fuel' st Hf Hf'.
  - assert (loop_cond max_pages st = false) as Hc.
    { unfold loop_cond. destruct (queue st); [done|].
      apply bool_decide_eq_false. lia. }
    destruct fuel'; cbn [crawl_loop]; [done|]. by rewrite Hc.
  - cbn [crawl_loop]. destruct (loop_cond max_pages st) eqn:Hc.
    + assert (Z.of_nat (pages_scraped_count st) < max_pages) as Hlt.
      { unfold loop_cond in Hc. destruct (queue st); [done|].
        by apply bool_decide_eq_true in Hc. }
      assert (queue st ≠ []) as Hq
        by (unfold loop_cond in Hc; by destruct (queue st)).
      destruct fuel' as [|fuel']; [lia|]. cbn [crawl_loop]. rewrite Hc.
      pose proof (loop_body_count w min_text_length st Hq) as Hcount.
      destruct (loop_body w min_text_length st) as [st' [e|]]; [done|].
      cbn [fst] in Hcount. apply IH; lia.
    + destruct fuel'; cbn [crawl_loop]; [done|]. by rewrite Hc.
Qed.

(** The loop with a larger budget is the loop with the smaller one,
    continued. *)
Lemma crawl_loop_continue w max_pages max_pages' min_text_length fuel :
  forall st fuel' fuel'',
  max_pages ≤ max_pages' ->
  (Z.to_nat (max_pages' - Z.of_nat (pages_scraped_count st)) ≤ fuel')%nat ->
  (Z.to_nat (max_pages' - Z.of_nat (pages_scraped_count st)) ≤ fuel'')%nat ->
  crawl_loop w fuel' max_pages' min_text_length st
  = match crawl_loop w fuel max_pages min_text_length st with
    | (st1, Some e) => (st1, Some e)
    | (st1, None) => crawl_loop w fuel'' max_pages' min_text_length st1
    end.
Proof.
  induction fuel as [|fuel IH]; intros st fuel' fuel'' Hle Hf' Hf''.
  - cbn [crawl_loop]. by apply crawl_loop_fuel.
  - cbn [crawl_loop]. destruct (loop_cond max_pages st) eqn:Hc;
      [|by apply crawl_loop_fuel].
    assert (Z.of_nat (pages_scraped_count st) < max_pages) as Hlt.
    { unfold loop_cond in Hc. destruct (queue st); [done|].
      by apply bool_decide_eq_true in Hc. }
    assert (queue st ≠ []) as Hq
      by (unfold loop_cond in Hc; by destruct (queue st)).
    assert (loop_cond max_pages' st = true) as Hc'.
    { unfold loop_cond in *. destruct (queue st); [done|].
      apply bool_decide_eq_true. lia. }
    destruct fuel' as [|fuel']; [lia|]. cbn [crawl_loop]. rewrite Hc'.
    pose proof (loop_body_count w min_text_length st Hq) as Hcount.
    destruct (loop_body w min_text_length st) as [st' [e|]]; [done|].
    cbn [fst] in Hcount. apply IH; [done|lia|lia].
Qed.

(** The loop only adds: to the requests, to the records, to the visited
    set. *)
Lemma crawl_loop_grows w max_pages min_text_length fuel st :
  let st' := fst (crawl_loop w fuel max_pages min_text_length st) in
  requested (trace st) `prefix_of` requested (trace st')
  ∧ all_results st `prefix_of` all_results st'
  ∧ visited_urls st ⊆ visited_urls st'.
Proof.
  apply (crawl_loop_invariant w max_pages min_text_length
           (fun s => requested (trace st) `prefix_of` requested (trace s)
                     ∧ all_results st `prefix_of` all_results s
                     ∧ visited_urls st ⊆ visited_urls s)).
  - intros u rest s _ _ (Hr & Ha & Hv). simpl. rewrite requested_snoc.
    split_and!; [by apply prefix_app_r|done|done].
  - intros data s (Hr & Ha & Hv). simpl.
    split_and!; [done|by apply prefix_app_r|done].
  - intros link s _ (Hr & Ha & Hv). simpl. rewrite requested_snoc, app_nil_r.
    split_and!; [done|done|set_solver].
  - done.
Qed.

(** What a run with a cleared file leaves in its final state. *)
Lemma run_final_state w fs start_url max_pages min_text_length output_file
    old_content :
  clear_fault fs = None ->
  let st := final_state (crawl_website_streamlit w fs start_url max_pages
                           min_text_length output_file old_content) in
  let loop := crawl_loop w (Z.to_nat max_pages) max_pages min_text_length
                (log_event (EvClear true) (initial_state start_url)) in
  requested (trace st) = requested (trace (fst loop))
  ∧ all_results st = all_results (fst loop)
  ∧ visited_urls st = visited_urls (fst loop)
  ∧ queue st = queue (fst loop)
  ∧ pages_scraped_count st = pages_scraped_count (fst loop).
Proof.
  intros Hclear. cbv zeta. unfold crawl_website_streamlit. rewrite Hclear.
  destruct (crawl_loop w _ _ _ _) as [st [e|]]; cbn [fst final_state]; [done|].
  destruct (write_fault fs) as [[e left]|]; cbn [final_state log_event trace
    all_results visited_urls queue pages_scraped_count];
    by rewrite requested_snoc, app_nil_r.
Qed.

(** X12 (the seed and the budget).  In a run whose file was cleared, with
    a budget of at least one page the start URL is the first URL requested;
    with a budget of zero or less nothing is requested and nothing saved,
    the start URL stays in the queue, and when the final write succeeds the
    run returns the path of an empty file. *)
Theorem seed_first (w : World) (fs : FileSystem) (start_url : pystr)
    (max_pages min_text_length : Z) (output_file old_content : pystr) :
  clear_fault fs = None ->
  let r := crawl_website_streamlit w fs start_url max_pages min_text_length
             output_file old_content in
  (1 ≤ max_pages ->
   exists rest, requested (trace (final_state r)) = start_url :: rest)
  ∧ (max_pages ≤ 0 ->
     requested (trace (final_state r)) = []
     ∧ all_results (final_state r) = []
     ∧ queue (final_state r) = [start_url]
     ∧ (write_fault fs = None ->
        returned r = Ok (Some output_file) ∧ output r = [])).
Proof.
  intros Hclear r.
  destruct (run_final_state w fs start_url max_pages min_text_length
              output_file old_content Hclear) as (Hreq & Hres & _ & Hqueue & _).
  fold r in Hreq, Hres, Hqueue. split.
  - intros Hmax. rewrite Hreq.
    destruct (Z.to_nat max_pages) as [|fuel] eqn:Hfuel; [lia|].
    cbn [crawl_loop].
    assert (loop_cond max_pages
              (log_event (EvClear true) (initial_state start_url)) = true)
      as -> by (apply bool_decide_eq_true; simpl; lia).
    pose proof (loop_body_requested w min_text_length
                  (log_event (EvClear true) (initial_state start_url))
                  start_url [] eq_refl) as Hbody.
    change (requested (trace (log_event (EvClear true)
                                (initial_state start_url))))
      with (@nil pystr) in Hbody. cbn [app] in Hbody.
    destruct (loop_body w min_text_length _) as [st' [e|]]; cbn [fst] in *.
    + by exists [].
    + destruct (crawl_loop_grows w max_pages min_text_length fuel st')
        as ([tl Htl] & _).
      exists tl. by rewrite Htl, Hbody.
  - intros Hmax. rewrite Hreq, Hres, Hqueue.
    replace (Z.to_nat max_pages) with 0%nat by lia. cbn [crawl_loop fst].
    split_and!; [done..|].
    intros Hwrite. subst r. unfold crawl_website_streamlit.
    rewrite Hclear, Hwrite.
    replace (Z.to_nat max_pages) with 0%nat by lia. done.
Qed.

(** The seed is requested first on the small site; with a budget of zero
    the file is written empty. *)
Lemma seed_first_witness :
  (exists rest,
     requested (trace (final_state
       (crawl_website_streamlit world_small Demo.fs_ok (str "http://h/") 2 5
          (str "out.jsonl") []))) = str "http://h/" :: rest)
  ∧ output (crawl_website_streamlit world_small Demo.fs_ok (str "http://h/")
              0 5 (str "out.jsonl") (str "stale")) = [].
Proof.
  destruct (seed_first world_small Demo.fs_ok (str "http://h/") 2 5
              (str "out.jsonl") [] eq_refl) as [Hone _].
  destruct (seed_first world_small Demo.fs_ok (str "http://h/") 0 5
              (str "out.jsonl") (str "stale") eq_refl) as [_ Hzero].
  split; [apply Hone; lia|].
  destruct Hzero as (_ & _ & _ & Hout); [lia|]. by destruct Hout.
Defined.

(** X13 (a larger budget).  Take two runs from the same start URL with the
    same text threshold, both with the file cleared, over the same static
    inputs and with sets enumerated in the same order (as in one interpreter
    process); the second has the larger [max_pages].  Then the second run
    only continues the first: the URLs requested by the first are the first
    ones requested by the second, the records accumulated by the first are
    the first ones accumulated by the second, and the visited set of the
    first is contained in that of the second.  Without the same order of
    enumeration this fails. *)
Theorem budget_monotone (w w' : World) (fs fs' : FileSystem)
    (start_url : pystr) (max_pages max_pages' min_text_length : Z)
    (output_file output_file' old_content old_content' : pystr) :
  same_static_inputs w w' ->
  same_set_order w w' ->
  clear_fault fs = None ->
  clear_fault fs' = None ->
  max_pages ≤ max_pages' ->
  let st := final_state (crawl_website_streamlit w fs start_url max_pages
                           min_text_length output_file old_content) in
  let st' := final_state (crawl_website_streamlit w' fs' start_url max_pages'
                            min_text_length output_file' old_content') in
  requested (trace st) `prefix_of` requested (trace st')
  ∧ all_results st `prefix_of` all_results st'
  ∧ visited_urls st ⊆ visited_urls st'.
Proof.
  intros Hsame Horder Hclear Hclear' Hle st st'. subst st st'.
  rewrite <- (crawl_same w w' Hsame Horder).
  destruct (run_final_state w fs start_url max_pages min_text_length
              output_file old_content Hclear) as (-> & -> & -> & _).
  destruct (run_final_state w fs' start_url max_pages' min_text_length
              output_file' old_content' Hclear') as (-> & -> & -> & _).
  rewrite (crawl_loop_continue w max_pages max_pages' min_text_length
             (Z.to_nat max_pages) _ (Z.to_nat max_pages') (Z.to_nat max_pages')
             Hle) by (simpl; lia).
  destruct (crawl_loop w (Z.to_nat max_pages) max_pages min_text_length _)
    as [st1 [e|]]; cbn [fst]; [done|].
  apply crawl_loop_grows.
Qed.

(** Budgets 2 and 10 on the small site, served twice with sets enumerated
    in insertion order; with the order reversed in the second run the
    second URL requested is another one. *)
Lemma budget_monotone_witness :
  let st := final_state (crawl_website_streamlit world_small Demo.fs_ok
                           (str "http://h/") 2 5 (str "out.jsonl") []) in
  let st' := final_state (crawl_website_streamlit (in_anchor_order world_small)
                            Demo.fs_ok (str "http://h/") 10 5
                            (str "out2.jsonl") (str "stale")) in
  let st'' := final_state (crawl_website_streamlit world_reversed
                             Demo.fs_ok (str "http://h/") 10 5
                             (str "out2.jsonl") (str "stale")) in
  requested (trace st) `prefix_of` requested (trace st')
  ∧ requested (trace st) = [str "http://h/"; str "http://h/a"]
  ∧ length (requested (trace st')) = 3%nat
  ∧ same_static_inputs world_small world_reversed
  ∧ ¬ requested (trace st) `prefix_of` requested (trace st'').
Proof.
  destruct (budget_monotone world_small (in_anchor_order world_small)
              Demo.fs_ok Demo.fs_ok (str "http://h/") 2 10 5
              (str "out.jsonl") (str "out2.jsonl") [] (str "stale"))
    as (Hreq & _).
  - by split_and!.
  - intros l. reflexivity.
  - reflexivity.
  - reflexivity.
  - lia.
  - split; [exact Hreq|]. split; [vm_compute; reflexivity|].
    split; [vm_compute; reflexivity|]. split; [by split_and!|].
    intros [tl Htl]. vm_compute in Htl. discriminate.
Defined.

(** ** The records are the gated requests *)

Lemma loop_body_records w min_text_length st u rest :
  queue st = u :: rest ->
  all_results (fst (loop_body w min_text_length st))
  = all_results st ++ records_of w min_text_length [u].
Proof.
  intros Hq. unfold loop_body, records_of, saved_text. rewrite Hq.
  cbn [omap list_omap].
  destruct (fetch_html w u) as [[html|]|e]; cbn [fst fmap option_fmap option_map];
    try by rewrite app_nil_r.
  destruct (truthy html); cbn [fst fmap option_fmap option_map];
    [|by rewrite app_nil_r].
  destruct (clean_html_text w html) as [[cleaned|]|e];
    cbn [fst fmap option_fmap option_map]; try by rewrite app_nil_r.
  destruct (truthy cleaned && _); cbn [fst fmap option_fmap option_map];
    [|by rewrite app_nil_r].
  destruct (find_internal_links w html u) as [links|e]; cbn [fst]; [|done].
  by destruct (merge_links_counters links
                 (save {| url := u; text := cleaned |} (dequeue u rest st)))
    as (_ & _ & ->).
Qed.

(** X14 (which pages are saved).  In every run the accumulated records
    are exactly the records of the requested URLs: going through the
    requests in order, one record, with the URL and the extracted text, for
    each page that was fetched as HTML with a non-empty body and whose text
    is non-empty and at least [min_text_length] long, and none for the
    others. *)
Theorem records_are_gated_requests (w : World) (fs : FileSystem)
    (start_url : pystr) (max_pages min_text_length : Z)
    (output_file old_content : pystr) :
  let st := final_state (crawl_website_streamlit w fs start_url max_pages
                           min_text_length output_file old_content) in
  all_results st = records_of w min_text_length (requested (trace st))
  ∧ (forall u, u ∈ requested (trace st) ->
       (exists t, {| url := u; text := t |} ∈ all_results st)
       <-> is_Some (saved_text w min_text_length u)).
Proof.
  intros st.
  assert (all_results st = records_of w min_text_length (requested (trace st)))
    as Hall.
  { apply (run_step_invariant w max_pages min_text_length
             (fun s => all_results s
                       = records_of w min_text_length (requested (trace s)))).
    - intros ev s Hev Hs. simpl. rewrite requested_snoc.
      destruct ev; try done; by rewrite app_nil_r.
    - intros s Hc Hs. unfold loop_cond in Hc.
      destruct (queue s) as [|u rest] eqn:Hq; [done|].
      rewrite (loop_body_records w min_text_length s u rest Hq).
      rewrite (loop_body_requested w min_text_length s u rest Hq).
      unfold records_of in *. by rewrite omap_app, Hs.
    - done. }
  split; [done|]. intros u Hu. rewrite Hall. unfold records_of. split.
  - intros [t Ht]. apply list_elem_of_omap in Ht as (u' & _ & Hu').
    destruct (saved_text w min_text_length u') as [t'|] eqn:Hsaved; [|done].
    injection Hu' as <- <-. by rewrite Hsaved.
  - intros [t Ht]. exists t. apply list_elem_of_omap. exists u.
    split; [done|]. by rewrite Ht.
Qed.

(** ** The download button *)

Lemma successful_output w fs start_url max_pages min_text_length output_file
    old_content p :
  let r := crawl_website_streamlit w fs start_url max_pages min_text_length
             output_file old_content in
  returned r = Ok (Some p) ->
  output r = jsonl (all_results (final_state r)).
Proof.
  cbv zeta. unfold crawl_website_streamlit.
  destruct (clear_fault fs) as [e|]; cbn [returned output final_state];
    [by destruct (is_IOError e)|].
  destruct (crawl_loop w _ _ _ _) as [st [e|]];
    cbn [returned output final_state]; [done|].
  destruct (write_fault fs) as [[e left]|]; cbn [returned output final_state];
    [by destruct (is_IOError e)|done].
Qed.

(** X15 (the download).  The handler offers a download exactly when the
    start URL is valid, the crawl function returned a non-empty path, the
    file exists and reading it does not raise; the data offered is then the
    file the run wrote, one line per record of this run, under the name of
    the output file.  In every other case no download is offered. *)
Theorem download_offered (w : World) (fs : FileSystem) (disk : Disk)
    (start_url : pystr) (max_pages min_text_length : Z)
    (output_file old_content data file_name : pystr) :
  let r := crawl_website_streamlit w fs start_url max_pages min_text_length
             output_file old_content in
  on_start_crawling w fs disk start_url max_pages min_text_length
    output_file old_content = Ok (ShowDownload data file_name)
  <-> is_valid_url w start_url = Ok true
      ∧ returned r = Ok (Some output_file)
      ∧ output_file ≠ []
      ∧ path_exists disk = true
      ∧ read_fault disk = None
      ∧ file_name = output_file
      ∧ data = jsonl (all_results (final_state r)).
Proof.
  intros r. subst r. unfold on_start_crawling. cbv zeta. split.
  - destruct (is_valid_url w start_url) as [[|]|e]; cbn [mbind result_bind];
      [|done..].
    destruct (returned _) as [[p|]|e] eqn:Hret; cbn [mbind result_bind];
      [|done..].
    pose proof (successful_output _ _ _ _ _ _ _ _ Hret) as Hout.
    destruct (successful_run _ _ _ _ _ _ _ _ Hret) as (-> & _).
    destruct (truthy output_file) eqn:Hp; [|done].
    destruct (path_exists disk); [|done].
    destruct (read_fault disk) as [e|]; [by destruct (is_Exception e)|].
    intros [= <- <-]. split_and!; try done. by destruct output_file.
  - intros (-> & Hret & Hne & -> & -> & -> & ->). rewrite Hret.
    cbn [mbind result_bind].
    assert (truthy output_file = true) as -> by by destruct output_file.
    by rewrite (successful_output _ _ _ _ _ _ _ _ Hret).
Qed.


(** ** The summary is consistent *)

(** X16 (the summary).  In the success message the number of pages saved
    is at most the number of pages attempted, which is at most the number
    of unique URLs; when the message says that no more links were found,
    the number of unique URLs is exactly the number of pages it reports as
    scraped: every URL that was discovered has been attempted. *)
Theorem summary_consistent (w : World) (fs : FileSystem) (start_url : pystr)
    (max_pages min_text_length : Z) (output_file old_content : pystr)
    (s : Summary) :
  let r := crawl_website_streamlit w fs start_url max_pages min_text_length
             output_file old_content in
  final_status max_pages r = Some s ->
  (pages_saved s ≤ pages_scraped_count (final_state r))%nat
  ∧ (pages_scraped_count (final_state r) ≤ unique_urls s)%nat
  ∧ pages_saved s = length (split_lines (output r))
  ∧ (forall n, message s = NoMoreLinks n -> unique_urls s = n).
Proof.
  intros r Hs.
  destruct (final_status_Some _ _ _ _ _ _ _ _ Hs) as (st & Hst & Hcond & Hmsg).
  fold r in Hst.
  assert (unique_urls s = size (visited_urls (final_state r))
          ∧ pages_saved s = data_saved_count (final_state r)
          ∧ exists p, returned r = Ok (Some p)) as (Hu & Hp & (p & Hret)).
  { unfold final_status in Hs. fold r in Hs.
    destruct (returned r) as [[p|]|e] eqn:Hret; [| |done].
    - destruct (negb (crawl_error_occurred r) && negb (write_error r));
        [|done].
      injection Hs as <-. split_and!; [done..|]. by exists p.
    - exfalso. subst r. unfold crawl_website_streamlit in *.
      destruct (clear_fault fs) as [e|]; cbn in *.
      { destruct (is_IOError e); done. }
      destruct (crawl_loop w _ _ _ _) as [st' [e|]]; cbn in *; [done|].
      destruct (write_fault fs) as [[e left]|]; cbn in *; [|done].
      destruct (is_IOError e); done. }
  destruct (run_results_ok w fs start_url max_pages min_text_length
              output_file old_content) as (Hcount & Hsub & _).
  destruct (run_counter_ok w fs start_url max_pages min_text_length
              output_file old_content) as [Hreq _].
  pose proof (size_visited _ (run_frontier_ok w fs start_url max_pages
                                min_text_length output_file old_content))
    as Hsize.
  fold r in Hcount, Hsub, Hreq, Hsize. rewrite <- Hreq in Hsize.
  split_and!.
  - rewrite Hp, Hcount, Hreq, <- (length_fmap url). by apply sublist_length.
  - rewrite Hu, Hsize. lia.
  - rewrite Hp, Hcount.
    pose proof (successful_output _ _ _ _ _ _ _ _ Hret) as Hout.
    change (output r = jsonl (all_results (final_state r))) in Hout.
    by rewrite Hout, split_lines_jsonl, length_fmap.
  - intros n Hn. rewrite Hu, Hsize. rewrite Hmsg in Hn.
    unfold finish_message in Hn. rewrite Hst. cbn [log_event queue
      pages_scraped_count].
    destruct (queue st) as [|u rest] eqn:Hq.
    + rewrite (bool_decide_eq_false_2 ([] ≠ [])) in Hn
        by (intros H; by apply H).
      cbn [negb andb] in Hn. case_bool_decide; [|by case_bool_decide].
      injection Hn as <-. simpl. lia.
    + rewrite (bool_decide_eq_true_2 (u :: rest ≠ [])) in Hn by done.
      cbn [negb andb] in Hn. by case_bool_decide.
Qed.

(** The summary on the small site. *)
Lemma summary_consistent_witness :
  let r := crawl_website_streamlit world_small Demo.fs_ok (str "http://h/")
             10 5 (str "out.jsonl") [] in
  final_status 10 r
  = Some {| message := NoMoreLinks 3; unique_urls := 3; pages_saved := 3 |}
  ∧ length (split_lines (output r)) = 3%nat.
Proof.
  pose (r := crawl_website_streamlit world_small Demo.fs_ok (str "http://h/")
               10 5 (str "out.jsonl") []).
  assert (final_status 10 r
          = Some {| message := NoMoreLinks 3; unique_urls := 3;
                    pages_saved := 3 |}) as Hs by (vm_compute; reflexivity).
  destruct (summary_consistent world_small Demo.fs_ok (str "http://h/") 10 5
              (str "out.jsonl") [] _ Hs) as (_ & _ & Hlines & _).
  split; [exact Hs|]. symmetry. exact Hlines.
Defined.
